(** * SourceUpdater: a serialising queue in front of a Media Source buffer

    A shallow embedding of [src/source-updater.js] (class [SourceUpdater])
    together with the part of its environment the class talks to: the
    [MediaSource] that owns the [SourceBuffer]s, the event emitter used to
    pair the audio and the video updater, and the caller's completion
    callbacks.  The class is single threaded; every method and every event
    handler is a function of the heap it can reach, in a small state and
    exception monad.  Logging ([logger_], [printableRange]) has no effect on
    that heap and is left out. *)

From Stdlib Require Import Floats.
From stdpp Require Import base option list strings.

Module SourceUpdater.

(** ** Values handed to and kept by the updater *)

(** [MediaSource.readyState]. *)
Inductive ReadyState := closed | open | ended.

(** [a === b]. *)
Definition ReadyState_eqb (a b : ReadyState) : bool :=
  match a, b with
  | closed, closed | open, open | ended, ended => true
  | _, _ => false
  end.

(** A [done] function: [noop], the default of [remove], or a function [Fn id]
    of the caller. *)
Inductive Callback := noop | Fn (id : nat).

(** The closures pushed by the public methods.  Each one is bound to the
    updater and reads [this.sourceBuffer_] when it is run, not when it is
    queued, so a closure is its method and its captured arguments. *)
Inductive Action :=
| sourceBuffer_abort
| sourceBuffer_appendBuffer (bytes : list Byte.byte)
| sourceBuffer_remove (start end_ : float)
| sourceBuffer_set_timestampOffset (offset : float).

(** The public methods that change the updater, as a caller (or a
    completion callback) invokes them.  An absent [done] or [offset] is
    [None] ([undefined]).  [buffered()] and [updating()] only read. *)
Inductive Call :=
| CallAbort (done : option Callback)
| CallAppendBuffer (bytes : list Byte.byte) (done : option Callback)
| CallRemove (start end_ : float) (done : option Callback)
| CallTimestampOffset (offset : option float)
| CallDispose.

(** What a completion callback could be handed.  The handler of
    ['updateend'] takes no parameter and calls [pendingCallback()] with an
    empty argument list. *)
Inductive Argument := FailureArgument.

(** What an observer of one run sees, oldest first. *)
Inductive Obs :=
| Called (c : Call)                                       (* a public method was entered *)
| Enqueued (callback : Action) (done : option Callback)   (* callbacks_.push([callback, done]) *)
| Dispatched (callback : Action) (done : option Callback) (* callbacks[0]() in runCallback_ *)
| Updateend                                               (* onUpdateendCallback_ was entered *)
| Invoked (done : Callback) (args : list Argument)        (* pendingCallback() *)
| AbortRequested.                                         (* sourceBuffer_.abort() in dispose *)

(** The exception of [undefined.m(...)]. *)
Inductive JsError := TypeError.

(** ** The heap *)

(** A [SourceBuffer] of the Media Source Extensions: [appendBuffer] and
    [remove] set [updating]; the buffer clears it when the work is over and
    then fires ['updateend'] at its listeners. *)
Record SourceBuffer := mkSourceBuffer {
  sb_mimeType : string;
  sb_updating : bool;
  sb_timestampOffset : float;
  sb_listeners : list nat     (* 'updateend' listeners: closures made by start_ *)
}.

(** The updater and what it can reach: its own fields, its media source
    with the buffers (an updater refers to its buffer by position, the
    buffers others created are in the same list), and its handlers on the
    emitter.  The trace is not part of the program: it keeps what the
    program did. *)
Record State := mkState {
  (* this.* *)
  callbacks_ : list (Action * option Callback);
  pendingCallback_ : option Callback;          (* null / undefined is None *)
  timestampOffset_ : float;
  processedAppend_ : bool;
  type_ : string;
  mimeType_ : string;
  started_ : bool;                             (* undefined until start_ *)
  sourceBuffer_ : option nat;                  (* a reference into mediaSource.sourceBuffers *)
  onUpdateendCallback_ : option nat;           (* the closure made by the last start_ *)
  (* this.mediaSource.* *)
  readyState : ReadyState;
  sourceBuffers : list SourceBuffer;
  sourceopen_listeners : list (string * bool); (* createSourceBuffer_.bind(this, mimeType, emitter) *)
  (* sourceBufferEmitter: the updater's own 'sourcebufferadded' handlers *)
  sourcebufferadded_handlers : nat;
  (* bookkeeping of the model *)
  next_closure : nat;
  trace : list Obs
}.

(** Assignments to one field. *)
Definition set_callbacks_ v (s : State) : State :=
  mkState v (pendingCallback_ s) (timestampOffset_ s) (processedAppend_ s) (type_ s)
    (mimeType_ s) (started_ s) (sourceBuffer_ s) (onUpdateendCallback_ s) (readyState s)
    (sourceBuffers s) (sourceopen_listeners s) (sourcebufferadded_handlers s)
    (next_closure s) (trace s).
Definition set_pendingCallback_ v (s : State) : State :=
  mkState (callbacks_ s) v (timestampOffset_ s) (processedAppend_ s) (type_ s)
    (mimeType_ s) (started_ s) (sourceBuffer_ s) (onUpdateendCallback_ s) (readyState s)
    (sourceBuffers s) (sourceopen_listeners s) (sourcebufferadded_handlers s)
    (next_closure s) (trace s).
Definition set_timestampOffset_ v (s : State) : State :=
  mkState (callbacks_ s) (pendingCallback_ s) v (processedAppend_ s) (type_ s)
    (mimeType_ s) (started_ s) (sourceBuffer_ s) (onUpdateendCallback_ s) (readyState s)
    (sourceBuffers s) (sourceopen_listeners s) (sourcebufferadded_handlers s)
    (next_closure s) (trace s).
Definition set_processedAppend_ v (s : State) : State :=
  mkState (callbacks_ s) (pendingCallback_ s) (timestampOffset_ s) v (type_ s)
    (mimeType_ s) (started_ s) (sourceBuffer_ s) (onUpdateendCallback_ s) (readyState s)
    (sourceBuffers s) (sourceopen_listeners s) (sourcebufferadded_handlers s)
    (next_closure s) (trace s).
Definition set_started_ v (s : State) : State :=
  mkState (callbacks_ s) (pendingCallback_ s) (timestampOffset_ s) (processedAppend_ s)
    (type_ s) (mimeType_ s) v (sourceBuffer_ s) (onUpdateendCallback_ s) (readyState s)
    (sourceBuffers s) (sourceopen_listeners s) (sourcebufferadded_handlers s)
    (next_closure s) (trace s).
Definition set_sourceBuffer_ v (s : State) : State :=
  mkState (callbacks_ s) (pendingCallback_ s) (timestampOffset_ s) (processedAppend_ s)
    (type_ s) (mimeType_ s) (started_ s) v (onUpdateendCallback_ s) (readyState s)
    (sourceBuffers s) (sourceopen_listeners s) (sourcebufferadded_handlers s)
    (next_closure s) (trace s).
Definition set_onUpdateendCallback_ v (s : State) : State :=
  mkState (callbacks_ s) (pendingCallback_ s) (timestampOffset_ s) (processedAppend_ s)
    (type_ s) (mimeType_ s) (started_ s) (sourceBuffer_ s) v (readyState s)
    (sourceBuffers s) (sourceopen_listeners s) (sourcebufferadded_handlers s)
    (next_closure s) (trace s).
Definition set_readyState v (s : State) : State :=
  mkState (callbacks_ s) (pendingCallback_ s) (timestampOffset_ s) (processedAppend_ s)
    (type_ s) (mimeType_ s) (started_ s) (sourceBuffer_ s) (onUpdateendCallback_ s) v
    (sourceBuffers s) (sourceopen_listeners s) (sourcebufferadded_handlers s)
    (next_closure s) (trace s).
Definition set_sourceBuffers v (s : State) : State :=
  mkState (callbacks_ s) (pendingCallback_ s) (timestampOffset_ s) (processedAppend_ s)
    (type_ s) (mimeType_ s) (started_ s) (sourceBuffer_ s) (onUpdateendCallback_ s)
    (readyState s) v (sourceopen_listeners s) (sourcebufferadded_handlers s)
    (next_closure s) (trace s).
Definition set_sourceopen_listeners v (s : State) : State :=
  mkState (callbacks_ s) (pendingCallback_ s) (timestampOffset_ s) (processedAppend_ s)
    (type_ s) (mimeType_ s) (started_ s) (sourceBuffer_ s) (onUpdateendCallback_ s)
    (readyState s) (sourceBuffers s) v (sourcebufferadded_handlers s) (next_closure s)
    (trace s).
Definition set_sourcebufferadded_handlers v (s : State) : State :=
  mkState (callbacks_ s) (pendingCallback_ s) (timestampOffset_ s) (processedAppend_ s)
    (type_ s) (mimeType_ s) (started_ s) (sourceBuffer_ s) (onUpdateendCallback_ s)
    (readyState s) (sourceBuffers s) (sourceopen_listeners s) v (next_closure s)
    (trace s).
Definition set_next_closure v (s : State) : State :=
  mkState (callbacks_ s) (pendingCallback_ s) (timestampOffset_ s) (processedAppend_ s)
    (type_ s) (mimeType_ s) (started_ s) (sourceBuffer_ s) (onUpdateendCallback_ s)
    (readyState s) (sourceBuffers s) (sourceopen_listeners s)
    (sourcebufferadded_handlers s) v (trace s).
Definition set_trace v (s : State) : State :=
  mkState (callbacks_ s) (pendingCallback_ s) (timestampOffset_ s) (processedAppend_ s)
    (type_ s) (mimeType_ s) (started_ s) (sourceBuffer_ s) (onUpdateendCallback_ s)
    (readyState s) (sourceBuffers s) (sourceopen_listeners s)
    (sourcebufferadded_handlers s) (next_closure s) v.

(** ** Running JavaScript: state and exceptions *)

(** A method either returns a value or throws; both leave a heap behind. *)
Inductive Completion (A : Type) :=
| Normal (a : A) (s : State)
| Throw (e : JsError) (s : State).
Arguments Normal {A} a s.
Arguments Throw {A} e s.

(** A piece of JavaScript that returns an [A]. *)
Definition M (A : Type) : Type := State → Completion A.

(** The heap a completion leaves behind. *)
Definition state_of {A} (c : Completion A) : State :=
  match c with Normal _ s => s | Throw _ s => s end.

(** Sequencing stops at the first throw. *)
Definition ret {A} (a : A) : M A := λ s, Normal a s.
Definition bind {A B} (m : M A) (k : A → M B) : M B :=
  λ s, match m s with Normal a s' => k a s' | Throw e s' => Throw e s' end.
Definition get {A} (f : State → A) : M A := λ s, Normal (f s) s.
Definition modify (f : State → State) : M unit := λ s, Normal tt (f s).
Definition observe (o : Obs) : M unit := modify (λ s, set_trace (trace s ++ [o]) s).

(** An event dispatcher (the DOM's and video.js's) reports what a listener
    throws and goes on with the next listener. *)
Definition swallow {A} (m : M A) : M unit := λ s, Normal tt (state_of (m s)).

Declare Scope js_scope.
Delimit Scope js_scope with js.
Notation "x ← m ; k" := (bind m (λ x, k))
  (at level 20, m at level 100, k at level 200, only parsing) : js_scope.
Notation "m ;; k" := (bind m (λ _, k))
  (at level 100, k at level 200, only parsing, right associativity) : js_scope.
Local Open Scope js_scope.

(** [l.forEach(f)], and doing [m] [n] times. *)
Fixpoint for_each {A} (l : list A) (f : A → M unit) : M unit :=
  match l with
  | [] => ret tt
  | x :: l' => f x ;; for_each l' f
  end.

Fixpoint times (n : nat) (m : M unit) : M unit :=
  match n with
  | O => ret tt
  | S n' => m ;; times n' m
  end.

(** ** The environment: SourceBuffer, MediaSource, emitter *)

(** The buffers are those of the Media Source Extensions, as far as the
    updater can tell: a new buffer is idle; [appendBuffer] and [remove] make
    it busy; [abort] makes it idle; assigning [timestampOffset] takes effect
    at once and leaves [updating] alone.  No method of a buffer or of the
    media source is taken to throw. *)
Definition SourceBuffer_new (mimeType : string) : SourceBuffer :=
  mkSourceBuffer mimeType false 0%float [].

Definition SourceBuffer_run (a : Action) (b : SourceBuffer) : SourceBuffer :=
  match a with
  | sourceBuffer_abort =>
      mkSourceBuffer (sb_mimeType b) false (sb_timestampOffset b) (sb_listeners b)
  | sourceBuffer_appendBuffer _ | sourceBuffer_remove _ _ =>
      mkSourceBuffer (sb_mimeType b) true (sb_timestampOffset b) (sb_listeners b)
  | sourceBuffer_set_timestampOffset offset =>
      mkSourceBuffer (sb_mimeType b) (sb_updating b) offset (sb_listeners b)
  end.

(** The buffer has done its work and clears [updating]. *)
Definition SourceBuffer_idle (b : SourceBuffer) : SourceBuffer :=
  mkSourceBuffer (sb_mimeType b) false (sb_timestampOffset b) (sb_listeners b).

(** [addEventListener] ignores a listener that is registered already. *)
Definition SourceBuffer_addEventListener (h : nat) (b : SourceBuffer) : SourceBuffer :=
  mkSourceBuffer (sb_mimeType b) (sb_updating b) (sb_timestampOffset b)
    (if bool_decide (h ∈ sb_listeners b) then sb_listeners b else sb_listeners b ++ [h]).

(** [removeEventListener(type, undefined)] removes nothing. *)
Definition SourceBuffer_removeEventListener (h : option nat) (b : SourceBuffer) : SourceBuffer :=
  mkSourceBuffer (sb_mimeType b) (sb_updating b) (sb_timestampOffset b)
    (match h with
     | Some h => filter (λ h', h' ≠ h) (sb_listeners b)
     | None => sb_listeners b
     end).

(** [mediaSource.addSourceBuffer(mimeType)]: the new buffer is the last one. *)
Definition MediaSource_addSourceBuffer (mimeType : string) : M nat :=
  n ← get (λ s, length (sourceBuffers s));
  modify (λ s, set_sourceBuffers (sourceBuffers s ++ [SourceBuffer_new mimeType]) s);;
  ret n.

(** The object [this.sourceBuffer_] refers to, if any. *)
Definition the_sourceBuffer (s : State) : option SourceBuffer :=
  match sourceBuffer_ s with
  | Some i => sourceBuffers s !! i
  | None => None
  end.

(** [this.sourceBuffer_.m(...)]: a [TypeError] when [sourceBuffer_] is
    undefined, the method [f] on the referenced buffer otherwise. *)
Definition on_sourceBuffer_ (f : SourceBuffer → SourceBuffer) : M unit :=
  λ s, match sourceBuffer_ s, the_sourceBuffer s with
       | Some i, Some _ => Normal tt (set_sourceBuffers (alter f i (sourceBuffers s)) s)
       | _, _ => Throw TypeError s
       end.

(** ** The class *)

(** Modelled from the spec: util/noop is imported by the class and is not
    among the sources.  The specification gives it as the default of
    [remove]'s [done] ("done=noop"): a function that does nothing, so it
    invokes no public method. *)
Definition noop_body : list Call := [].

(** [if (v)] for a value that is a function, an object or absent. *)
Definition truthy {A} (v : option A) : bool :=
  match v with Some _ => true | None => false end.

Section Methods.

(** What the caller's functions do when they are called: [user id s] are the
    public methods function [id] invokes, given the heap [s] it finds. *)
Variable user : nat → State → list Call.

(** What a [done] function does when it is called. *)
Definition callback_body (done : Callback) (s : State) : list Call :=
  match done with
  | noop => noop_body
  | Fn id => user id s
  end.

(** [updating()], as a truth value. *)
Definition updating (s : State) : bool :=
  match the_sourceBuffer s with
  | None => true
  | Some b => sb_updating b || truthy (pendingCallback_ s)
  end.

Definition runCallback_ : M unit :=
  λ s,
    if negb (updating s) && (0 <? length (callbacks_ s)) && started_ s then
      match callbacks_ s with
      | callbacks :: rest =>
          (modify (set_callbacks_ rest);;
           modify (set_pendingCallback_ callbacks.2);;
           observe (Dispatched callbacks.1 callbacks.2);;
           on_sourceBuffer_ (SourceBuffer_run callbacks.1)) s
      | [] => Throw TypeError s
      end
    else Normal tt s.

Definition queueCallback_ (callback : Action) (done : option Callback) : M unit :=
  modify (λ s, set_callbacks_ (callbacks_ s ++ [(callback, done)]) s);;
  observe (Enqueued callback done);;
  runCallback_.

Definition abort (done : option Callback) : M unit :=
  processedAppend ← get processedAppend_;
  if processedAppend then queueCallback_ sourceBuffer_abort done else ret tt.

Definition appendBuffer (bytes : list Byte.byte) (done : option Callback) : M unit :=
  modify (set_processedAppend_ true);;
  queueCallback_ (sourceBuffer_appendBuffer bytes) done.

Definition remove (start end_ : float) (done : option Callback) : M unit :=
  let done := default noop done in
  processedAppend ← get processedAppend_;
  if processedAppend then queueCallback_ (sourceBuffer_remove start end_) (Some done)
  else ret tt.

Definition timestampOffset (offset : option float) : M float :=
  match offset with
  | Some offset =>
      queueCallback_ (sourceBuffer_set_timestampOffset offset) None;;
      modify (set_timestampOffset_ offset)
  | None => ret tt
  end;;
  get timestampOffset_.

Definition dispose : M unit :=
  onUpdateendCallback ← get onUpdateendCallback_;
  on_sourceBuffer_ (SourceBuffer_removeEventListener onUpdateendCallback);;
  sourceBuffer ← get the_sourceBuffer;
  readyState ← get readyState;
  if truthy sourceBuffer && ReadyState_eqb readyState open then
    observe AbortRequested;;
    on_sourceBuffer_ (SourceBuffer_run sourceBuffer_abort)
  else ret tt.

(** A public method is invoked. *)
Definition call (c : Call) : M unit :=
  observe (Called c);;
  match c with
  | CallAbort done => abort done
  | CallAppendBuffer bytes done => appendBuffer bytes done
  | CallRemove start end_ done => remove start end_ done
  | CallTimestampOffset offset => timestampOffset offset;; ret tt
  | CallDispose => dispose
  end.

(** [pendingCallback()]: no argument, then whatever the function does. *)
Definition call_callback (done : Callback) : M unit :=
  observe (Invoked done []);;
  calls ← get (callback_body done);
  for_each calls call.

(** The closure [start_] stores in [this.onUpdateendCallback_]. *)
Definition updateend_handler : M unit :=
  pendingCallback ← get pendingCallback_;
  modify (set_pendingCallback_ None);;
  observe Updateend;;
  match pendingCallback with
  | Some pendingCallback => call_callback pendingCallback
  | None => ret tt
  end;;
  runCallback_.

Definition start_ : M unit :=
  modify (set_started_ true);;
  h ← get next_closure;
  modify (set_next_closure (S h));;
  modify (set_onUpdateendCallback_ (Some h));;
  on_sourceBuffer_ (SourceBuffer_addEventListener h);;
  runCallback_.

(** [sourceBufferEmitter.trigger('sourcebufferadded')], as far as this
    updater is concerned: each of its own handlers runs [start_]. *)
Definition sourceBufferEmitter_trigger : M unit :=
  n ← get sourcebufferadded_handlers;
  times n (swallow start_).

Definition createSourceBuffer_ (mimeType : string) (sourceBufferEmitter : bool) : M unit :=
  i ← MediaSource_addSourceBuffer mimeType;
  modify (set_sourceBuffer_ (Some i));;
  if sourceBufferEmitter then
    sourceBufferEmitter_trigger;;
    n ← get (λ s, length (sourceBuffers s));
    if n <? 2 then
      modify (λ s, set_sourcebufferadded_handlers (S (sourcebufferadded_handlers s)) s)
    else start_
  else start_.

(** [new SourceUpdater(mediaSource, mimeType, type, sourceBufferEmitter)] on
    a media source in state [readyState0] that holds [others] buffers. *)
Definition constructor (readyState0 : ReadyState) (others : nat)
    (mimeType type : string) (sourceBufferEmitter : bool) : Completion unit :=
  let this :=
    mkState [] None 0%float false type mimeType false None None
      readyState0 (replicate others (SourceBuffer_new "")) [] 0 0 [] in
  (if ReadyState_eqb readyState0 closed then
     modify (λ s, set_sourceopen_listeners
                    (sourceopen_listeners s ++ [(mimeType, sourceBufferEmitter)]) s)
   else createSourceBuffer_ mimeType sourceBufferEmitter) this.

(** ** Events *)

(** What can happen to an updater, in any order: calls from its user, and
    the media source, the emitter and the buffers doing their part. *)
Inductive Event :=
| Invoke (c : Call)                    (* the caller invokes a public method *)
| SourceOpen                           (* the media source opens and fires 'sourceopen' *)
| ReadyStateChange (r : ReadyState)    (* the media source closes or ends *)
| ForeignSourceBuffer (mimeType : string) (* somebody else adds a buffer *)
| SourceBufferAdded                    (* the paired updater triggers 'sourcebufferadded' *)
| Idle (i : nat)                       (* buffer i is done with its work *)
| UpdateEnd (i : nat) (failed : bool). (* 'updateend' is fired at buffer i *)

(** The ['updateend'] listeners of buffer [i]. *)
Definition listeners_of (i : nat) (s : State) : list nat :=
  match sourceBuffers s !! i with
  | Some b => sb_listeners b
  | None => []
  end.

(** Every listener registered when the event is fired runs, unless it was
    removed in the meantime.  The listeners are closures of one and the same
    arrow function over the same [this]. *)
Definition fire_updateend (i : nat) : M unit :=
  hs ← get (listeners_of i);
  for_each hs (λ h,
    registered ← get (λ s, bool_decide (h ∈ listeners_of i s));
    if registered : bool then swallow updateend_handler else ret tt).

(** The media source opens: every bound [createSourceBuffer_] runs. *)
Definition fire_sourceopen : M unit :=
  modify (set_readyState open);;
  ls ← get sourceopen_listeners;
  for_each ls (λ l, swallow (createSourceBuffer_ l.1 l.2)).

(** One event.  What a public method or a listener throws goes to its
    caller; the heap stays as the throw left it. *)
Definition step (e : Event) (s : State) : State :=
  state_of
    (match e with
     | Invoke c => call c
     | SourceOpen => fire_sourceopen
     | ReadyStateChange r => modify (set_readyState r)
     | ForeignSourceBuffer mimeType => MediaSource_addSourceBuffer mimeType;; ret tt
     | SourceBufferAdded => sourceBufferEmitter_trigger
     | Idle i => modify (λ s, set_sourceBuffers (alter SourceBuffer_idle i (sourceBuffers s)) s)
     | UpdateEnd i _ => fire_updateend i
     end s).

(** The events of [t], one after the other. *)
Definition run (t : list Event) (s : State) : State :=
  foldl (λ s e, step e s) s t.

(** A heap some execution gets to. *)
Definition reachable (s : State) : Prop :=
  ∃ readyState0 others mimeType type sourceBufferEmitter t,
    s = run t (state_of (constructor readyState0 others mimeType type sourceBufferEmitter)).

End Methods.

(** ** Reading the buffer *)

(** A [TimeRanges] object, as the list of its ranges. *)
Definition TimeRanges := list (float * float).

(** [buffered()].  [SourceBuffer_buffered i] is what buffer [i] reports as
    its [buffered] attribute at the time of the call;
    [videojs.createTimeRanges()] is the object without ranges. *)
Definition buffered (SourceBuffer_buffered : nat → TimeRanges) (s : State) : TimeRanges :=
  match sourceBuffer_ s, the_sourceBuffer s with
  | Some i, Some _ => SourceBuffer_buffered i
  | _, _ => []
  end.

(** * The vocabulary of the properties *)

(** ** Reading a trace *)

(** One kind of observation at a time. *)
Definition as_enqueued (o : Obs) : option (Action * option Callback) :=
  match o with Enqueued callback done => Some (callback, done) | _ => None end.

Definition as_dispatched (o : Obs) : option (Action * option Callback) :=
  match o with Dispatched callback done => Some (callback, done) | _ => None end.

Definition as_invoked (o : Obs) : option (Callback * list Argument) :=
  match o with Invoked done args => Some (done, args) | _ => None end.

Definition as_called (o : Obs) : option Call :=
  match o with Called c => Some c | _ => None end.

(** The operations pushed on the queue, in the order they were pushed. *)
Definition enqueued (t : list Obs) := omap as_enqueued t.

(** The operations handed to the buffer, in that order. *)
Definition dispatched (t : list Obs) := omap as_dispatched t.

(** The completion callbacks that were run, with their arguments. *)
Definition invocations (t : list Obs) := omap as_invoked t.

Definition invoked (t : list Obs) : list Callback := (invocations t).*1.

(** The public methods that were entered. *)
Definition calls (t : list Obs) := omap as_called t.

(** The completion callbacks of a list of operations: the [done]s that are
    functions. *)
Definition dones (q : list (Action * option Callback)) : list Callback := omap snd q.

(** Scanning a trace for two dispatches with no ['updateend'] handled in
    between.  [blocks callback done] says whether a dispatched operation
    counts as in flight until the next ['updateend']; the result is [None]
    when a dispatch happens while one is in flight, else whether one is in
    flight at the end. *)
Fixpoint scan (blocks : Action → option Callback → bool) (in_flight : bool)
    (t : list Obs) : option bool :=
  match t with
  | [] => Some in_flight
  | Dispatched callback done :: t' =>
      if in_flight then None else scan blocks (blocks callback done) t'
  | Updateend :: t' => scan blocks false t'
  | _ :: t' => scan blocks in_flight t'
  end.

(** Every dispatched operation is in flight: the reading of the
    specification. *)
Definition every_operation : Action → option Callback → bool := λ _ _, true.

(** An operation is in flight when it has a completion callback: what
    [pendingCallback_] records. *)
Definition with_callback : Action → option Callback → bool := λ _ done, truthy done.

(** No dispatch in [t] happens while an operation is in flight. *)
Definition exclusive (blocks : Action → option Callback → bool) (t : list Obs) : bool :=
  truthy (scan blocks false t).

(** The values [timestampOffset] was called with. *)
Definition as_offset (c : Call) : option float :=
  match c with CallTimestampOffset (Some offset) => Some offset | _ => None end.

Definition offsets (t : list Obs) : list float := omap as_offset (calls t).

(** The last value [timestampOffset] was given, 0 before the first. *)
Definition cached_offset (t : list Obs) : float := default 0%float (last (offsets t)).

(** Whether [appendBuffer] was ever called. *)
Definition is_append (c : Call) : bool :=
  match c with CallAppendBuffer _ _ => true | _ => false end.

Definition append_called (t : list Obs) : bool := existsb is_append (calls t).

(** Whether some completion callback was handed an argument. *)
Definition failure_surfaced (t : list Obs) : bool :=
  existsb (λ x, match x.2 with [] => false | _ :: _ => true end) (invocations t).

(** ** The methods as functions of the heap *)

(** The test of [runCallback_]. *)
Definition can_dispatch (s : State) : bool :=
  negb (updating s) && (0 <? length (callbacks_ s)) && started_ s.

(** What [runCallback_] does when it goes ahead. *)
Definition dispatch (s : State) : State :=
  match callbacks_ s, sourceBuffer_ s with
  | callbacks :: rest, Some i =>
      set_sourceBuffers (alter (SourceBuffer_run callbacks.1) i (sourceBuffers s))
        (set_trace (trace s ++ [Dispatched callbacks.1 callbacks.2])
           (set_pendingCallback_ callbacks.2 (set_callbacks_ rest s)))
  | _, _ => s
  end.

(** [queueCallback_] before it calls [runCallback_]. *)
Definition push (callback : Action) (done : option Callback) (s : State) : State :=
  set_trace (trace s ++ [Enqueued callback done])
    (set_callbacks_ (callbacks_ s ++ [(callback, done)]) s).

(** [runCallback_]. *)
Definition run_queue (s : State) : State := if can_dispatch s then dispatch s else s.

(** What [dispose] leaves behind when it does not throw. *)
Definition disposed (i : nat) (s : State) : State :=
  let s1 :=
    set_sourceBuffers
      (alter (SourceBuffer_removeEventListener (onUpdateendCallback_ s)) i (sourceBuffers s)) s in
  if ReadyState_eqb (readyState s) open then
    set_sourceBuffers (alter (SourceBuffer_run sourceBuffer_abort) i (sourceBuffers s1))
      (set_trace (trace s ++ [AbortRequested]) s1)
  else s1.

(** The heap after the handler has cleared [pendingCallback_] and has
    called the function it found there, before that function's body runs. *)
Definition acknowledged (s : State) : State :=
  let s1 := set_trace (trace s ++ [Updateend]) (set_pendingCallback_ None s) in
  match pendingCallback_ s with
  | Some done => set_trace (trace s1 ++ [Invoked done []]) s1
  | None => s1
  end.

(** The public methods the pending callback invokes when it is run. *)
Definition reentrant_calls (user : nat → State → list Call) (s : State) : list Call :=
  match pendingCallback_ s with
  | Some done => callback_body user done (acknowledged s)
  | None => []
  end.

(** [start_] before it calls [runCallback_], on an updater whose buffer is
    buffer [i]. *)
Definition listening (i : nat) (s : State) : State :=
  let h := next_closure s in
  set_sourceBuffers (alter (SourceBuffer_addEventListener h) i (sourceBuffers s))
    (set_onUpdateendCallback_ (Some h) (set_next_closure (S h) (set_started_ true s))).

(** [createSourceBuffer_] once the buffer is there. *)
Definition after_addSourceBuffer (sourceBufferEmitter : bool) : M unit :=
  if sourceBufferEmitter then
    sourceBufferEmitter_trigger;;
    n ← get (λ s, length (sourceBuffers s));
    if n <? 2 then
      modify (λ s, set_sourcebufferadded_handlers (S (sourcebufferadded_handlers s)) s)
    else start_
  else start_.

(** The heap after buffer [i] has finished its work. *)
Definition idle (i : nat) (s : State) : State :=
  set_sourceBuffers (alter SourceBuffer_idle i (sourceBuffers s)) s.

(** ** Runs *)

(** The heap right after [new SourceUpdater(...)]. *)
Definition created (readyState0 : ReadyState) (others : nat)
    (mimeType type : string) (sourceBufferEmitter : bool) : State :=
  state_of (constructor readyState0 others mimeType type sourceBufferEmitter).

(** Callbacks that do not call back into the updater. *)
Definition no_reentrancy : nat → State → list Call := λ _ _, [].

(** Buffer [i] finishes its work and fires ['updateend']. *)
Definition completion (i : nat) : list Event := [Idle i; UpdateEnd i false].

(** [n] completions in a row. *)
Fixpoint completions (i n : nat) : list Event :=
  match n with
  | O => []
  | S n' => completion i ++ completions i n'
  end.

(** The events that are neither a public call nor an ['updateend']. *)
Definition internal (e : Event) : Prop :=
  match e with Invoke _ | UpdateEnd _ _ => False | _ => True end.

(** The events that are neither ['sourceopen'] nor ['sourcebufferadded']. *)
Definition quiet (e : Event) : Prop :=
  match e with SourceOpen | SourceBufferAdded => False | _ => True end.

(** ** States of the updater *)

(** The callbacks still owed: the one awaiting ['updateend'], then those of
    the queued operations. *)
Definition owed (s : State) : list Callback :=
  option_list (pendingCallback_ s) ++ dones (callbacks_ s).

(** The buffer reports that it is busy. *)
Definition resource_busy (s : State) : bool :=
  match the_sourceBuffer s with Some b => sb_updating b | None => false end.

(** The four conditions of the dispatch step, as the specification lists
    them: started, buffer not busy, no completion callback awaiting its
    ['updateend'], queue not empty. *)
Definition four_conditions (s : State) : bool :=
  started_ s && negb (resource_busy s) && negb (truthy (pendingCallback_ s))
  && negb (bool_decide (callbacks_ s = [])).

(** The updater is started on buffer [i] and only its handler [h] listens
    there. *)
Definition live (i h : nat) (s : State) : Prop :=
  started_ s = true ∧ sourceBuffer_ s = Some i ∧ listeners_of i s = [h].

(** Nothing has been created yet: no buffer of the updater's own, no
    handler of its own anywhere, the ['sourceopen'] listeners [ls]. *)
Definition dormant (ls : list (string * bool)) (s : State) : Prop :=
  sourceBuffer_ s = None ∧ sourcebufferadded_handlers s = 0
  ∧ sourceopen_listeners s = ls
  ∧ ∀ i, listeners_of i s = [].

(** The buffer is there, the updater waits for its pair: not started, one
    handler on the emitter. *)
Definition awaiting_pairing (s : State) : Prop :=
  started_ s = false ∧ sourcebufferadded_handlers s = 1.

(** ** What every reachable heap satisfies *)

(** The trace and the queue agree: what was queued is what was dispatched
    followed by what is queued still; the callbacks of what was dispatched
    are those that were run followed by the pending one; no dispatch
    happened while a callback was pending; nothing was dispatched before the
    start; and the updater has its buffer once it is started or subscribed
    to the emitter. *)
Record Inv (s : State) : Prop := {
  inv_fifo : enqueued (trace s) = dispatched (trace s) ++ callbacks_ s;
  inv_once : dones (dispatched (trace s)) = invoked (trace s) ++ option_list (pendingCallback_ s);
  inv_excl : scan with_callback false (trace s) = Some (truthy (pendingCallback_ s));
  inv_started : started_ s = false → dispatched (trace s) = [];
  inv_buffer : started_ s = true → is_Some (sourceBuffer_ s);
  inv_handlers : 0 < sourcebufferadded_handlers s → is_Some (sourceBuffer_ s);
  inv_ref : ∀ i, sourceBuffer_ s = Some i → i < length (sourceBuffers s);
  inv_idle : dispatched (trace s) = [] → Forall (λ b, sb_updating b = false) (sourceBuffers s)
}.

(** A heap with a buffer to start on. *)
Definition Inv_buffer (s : State) : Prop := Inv s ∧ is_Some (sourceBuffer_ s).

(** The two fields only the public calls set say what was called. *)
Record Inv_calls (s : State) : Prop := {
  inv_offset : timestampOffset_ s = cached_offset (trace s);
  inv_append : processedAppend_ s = append_called (trace s)
}.

(** An observation no projection of [Inv] looks at. *)
Definition silent (o : Obs) : Prop :=
  match o with Called _ | AbortRequested => True | _ => False end.

(** [m] keeps [P], whether it returns or throws. *)
Definition preserves {A} (P : State → Prop) (m : M A) : Prop :=
  ∀ s, P s → P (state_of (m s)).

(** ** Relations between the heap before and the heap after *)

(** [m] takes every heap to one related to it, whether it returns or
    throws. *)
Definition respects (R : relation State) {A} (m : M A) : Prop :=
  ∀ s, R s (state_of (m s)).

(** [s'] differs from [s] in nothing a public call would have to cause. *)
Definition frame : relation State := λ s s',
  calls (trace s') = calls (trace s)
  ∧ timestampOffset_ s' = timestampOffset_ s
  ∧ processedAppend_ s' = processedAppend_ s.

(** No completion callback was run in between. *)
Definition same_invocations : relation State := λ s s',
  invocations (trace s') = invocations (trace s).

(** Nothing was started, created or subscribed in between; listeners may
    have been removed. *)
Definition same_lifecycle : relation State := λ s s',
  started_ s' = started_ s
  ∧ sourceBuffer_ s' = sourceBuffer_ s
  ∧ sourcebufferadded_handlers s' = sourcebufferadded_handlers s
  ∧ sourceopen_listeners s' = sourceopen_listeners s
  ∧ readyState s' = readyState s
  ∧ length (sourceBuffers s') = length (sourceBuffers s)
  ∧ ∀ i, listeners_of i s' ⊆ listeners_of i s.

(** Starting and dispatching keep the buffer the updater refers to, the
    number of buffers and the ['sourceopen'] listeners. *)
Definition same_resources : relation State := λ s s',
  sourceBuffer_ s' = sourceBuffer_ s
  ∧ length (sourceBuffers s') = length (sourceBuffers s)
  ∧ sourceopen_listeners s' = sourceopen_listeners s.

(** The trace was only added to. *)
Definition grows : relation State := λ s s', trace s `prefix_of` trace s'.

(** ** Further states and relations *)

(** The offset an operation sets, if it is an offset change. *)
Definition as_set_offset (x : Action * option Callback) : option float :=
  match x.1 with sourceBuffer_set_timestampOffset offset => Some offset | _ => None end.

(** The offset changes among a list of operations. *)
Definition set_offsets (q : list (Action * option Callback)) : list float :=
  omap as_set_offset q.

(** The offset changes that were queued are the offsets that were set. *)
Definition mirrored (s : State) : Prop :=
  set_offsets (enqueued (trace s)) = offsets (trace s).

(** Neither the queue nor the calls were added to. *)
Definition same_requests : relation State := λ s s',
  enqueued (trace s') = enqueued (trace s) ∧ calls (trace s') = calls (trace s).

(** Nothing was undone: what was started is started, a buffer the updater
    had is replaced at most, no buffer left the media source and no
    subscription was given up. *)
Definition forward : relation State := λ s s',
  (started_ s = true → started_ s' = true)
  ∧ (is_Some (sourceBuffer_ s) → is_Some (sourceBuffer_ s'))
  ∧ length (sourceBuffers s) ≤ length (sourceBuffers s')
  ∧ sourceopen_listeners s' = sourceopen_listeners s
  ∧ sourcebufferadded_handlers s ≤ sourcebufferadded_handlers s'.

(** No buffer has an ['updateend'] listener of the updater. *)
Definition deaf (s : State) : Prop := ∀ j, listeners_of j s = [].

(** *** Notifications and dispatches, event by event *)

(** Event [e] is an ['updateend'] that finds a listener of the updater on
    its buffer: a completion notification the updater hears. *)
Definition heard (e : Event) (s : State) : bool :=
  match e with
  | UpdateEnd i _ => negb (bool_decide (listeners_of i s = []))
  | _ => false
  end.

(** The operations handed to the buffer while event [e] is processed. *)
Definition dispatched_during (user : nat → State → list Call) (e : Event) (s : State)
    : list (Action * option Callback) :=
  drop (length (dispatched (trace s))) (dispatched (trace (step user e s))).

Definition as_obs (x : Action * option Callback) : Obs := Dispatched x.1 x.2.

(** A run as the specification sees it: the notifications heard and the
    operations dispatched, event by event.  One ['updateend'] event is one
    notification, however many listeners it finds; what is dispatched while
    it is processed comes after it. *)
Fixpoint event_history (user : nat → State → list Call) (t : list Event) (s : State)
    : list Obs :=
  match t with
  | [] => []
  | e :: t' =>
      (if heard e s then [Updateend] else [])
      ++ (as_obs <$> dispatched_during user e s)
      ++ event_history user t' (step user e s)
  end.

(** An ['updateend'] event finds no listener, or it is fired at the buffer
    the updater refers to and finds one listener there. *)
Definition one_listener (e : Event) (s : State) : bool :=
  match e with
  | UpdateEnd i _ =>
      bool_decide (listeners_of i s = [])
      || bool_decide (sourceBuffer_ s = Some i) && (length (listeners_of i s) <=? 1)
  | _ => true
  end.

(** Every ['updateend'] event of the run is heard at most once, and only
    from the updater's own buffer. *)
Fixpoint singly (user : nat → State → list Call) (t : list Event) (s : State) : bool :=
  match t with
  | [] => true
  | e :: t' => one_listener e s && singly user t' (step user e s)
  end.

(** No ['updateend'] was handled in between. *)
Definition unnotified : relation State := λ s s',
  ∃ seg, trace s' = trace s ++ seg ∧ Forall (λ o, o ≠ Updateend) seg.

(** No buffer has more listeners than before. *)
Definition no_new_listeners : relation State := λ s s',
  ∀ j, length (listeners_of j s') ≤ length (listeners_of j s).

(** The only listener there is, if any, is one listener on the buffer the
    updater refers to. *)
Definition own_listener (s : State) : Prop :=
  ∀ j, listeners_of j s = []
       ∨ (sourceBuffer_ s = Some j ∧ length (listeners_of j s) ≤ 1).

(** The buffer after it was handed the actions of [q], one after the
    other, having turned idle before each. *)
Definition served (q : list (Action * option Callback)) (b : SourceBuffer) : SourceBuffer :=
  foldl (λ b x, SourceBuffer_run x.1 (SourceBuffer_idle b)) b q.

(** Heap [s'] is heap [s] with operation [x] queued: [x] is at the end of
    [callbacks_]; and if the updater was started and not updating, the head
    of that queue has left it, has been run on the buffer and has its [done]
    kept in [pendingCallback_]. *)
Definition queued_on (s : State) (x : Action * option Callback) (s' : State) : Prop :=
  let q := callbacks_ s ++ [x] in
  if started_ s && negb (updating s) then
    callbacks_ s' = drop 1 q
    ∧ dispatched (trace s') = dispatched (trace s) ++ take 1 q
    ∧ pendingCallback_ s' = head q ≫= snd
    ∧ the_sourceBuffer s' = served (take 1 q) <$> the_sourceBuffer s
  else
    callbacks_ s' = q
    ∧ dispatched (trace s') = dispatched (trace s)
    ∧ pendingCallback_ s' = pendingCallback_ s
    ∧ the_sourceBuffer s' = the_sourceBuffer s.

(** * Proofs *)

(** ** Traces grow at the end *)

Lemma enqueued_snoc t o : enqueued (t ++ [o]) = enqueued t ++ option_list (as_enqueued o).
Proof. unfold enqueued. rewrite omap_app. simpl. by destruct (as_enqueued o). Qed.

Lemma dispatched_snoc t o : dispatched (t ++ [o]) = dispatched t ++ option_list (as_dispatched o).
Proof. unfold dispatched. rewrite omap_app. simpl. by destruct (as_dispatched o). Qed.

Lemma invocations_snoc t o : invocations (t ++ [o]) = invocations t ++ option_list (as_invoked o).
Proof. unfold invocations. rewrite omap_app. simpl. by destruct (as_invoked o). Qed.

Lemma invoked_snoc t o : invoked (t ++ [o]) = invoked t ++ (option_list (as_invoked o)).*1.
Proof. unfold invoked. by rewrite invocations_snoc, fmap_app. Qed.

Lemma calls_snoc t o : calls (t ++ [o]) = calls t ++ option_list (as_called o).
Proof. unfold calls. rewrite omap_app. simpl. by destruct (as_called o). Qed.

Lemma dones_app q1 q2 : dones (q1 ++ q2) = dones q1 ++ dones q2.
Proof. apply omap_app. Qed.

Lemma scan_app blocks t1 t2 b :
  scan blocks b (t1 ++ t2) = scan blocks b t1 ≫= λ b', scan blocks b' t2.
Proof.
  revert b. induction t1 as [|o t1 IH]; intros b; [done|].
  destruct o; simpl; try apply IH.
  destruct b; [done|apply IH].
Qed.

Lemma scan_snoc blocks t o b b' :
  scan blocks b t = Some b' → scan blocks b (t ++ [o]) = scan blocks b' [o].
Proof. intros H. by rewrite scan_app, H. Qed.

Lemma updating_false s :
  updating s = false →
  ∃ i b, sourceBuffer_ s = Some i ∧ sourceBuffers s !! i = Some b
         ∧ sb_updating b = false ∧ pendingCallback_ s = None.
Proof.
  unfold updating, the_sourceBuffer.
  destruct (sourceBuffer_ s) as [i|]; [|done].
  destruct (sourceBuffers s !! i) as [b|] eqn:E; [|done].
  intros [Hb Hp]%orb_false_elim. exists i, b.
  destruct (pendingCallback_ s); [discriminate Hp|auto].
Qed.

Lemma runCallback__eq s :
  runCallback_ s = Normal tt (if can_dispatch s then dispatch s else s).
Proof.
  unfold runCallback_, can_dispatch.
  destruct (negb (updating s) && (0 <? length (callbacks_ s)) && started_ s) eqn:Hc; [|done].
  apply andb_prop in Hc as [[Hu Hl]%andb_prop _].
  apply negb_true_iff, updating_false in Hu as (i & b & Hi & Hb & _ & _).
  unfold dispatch. destruct (callbacks_ s) as [|[callback done] rest]; [discriminate Hl|].
  unfold bind, modify, observe, on_sourceBuffer_, the_sourceBuffer. simpl.
  by rewrite Hi, Hb.
Qed.

Lemma queueCallback__eq callback done s :
  queueCallback_ callback done s = Normal tt (run_queue (push callback done s)).
Proof. unfold queueCallback_, bind, modify, observe. simpl. apply runCallback__eq. Qed.

Lemma can_dispatch_true s :
  can_dispatch s = true →
  ∃ i b callbacks rest,
    sourceBuffer_ s = Some i ∧ sourceBuffers s !! i = Some b ∧ sb_updating b = false
    ∧ pendingCallback_ s = None ∧ callbacks_ s = callbacks :: rest ∧ started_ s = true.
Proof.
  unfold can_dispatch. intros [[Hu Hl]%andb_prop Hs]%andb_prop.
  apply negb_true_iff, updating_false in Hu as (i & b & Hi & Hb & Hu & Hp).
  destruct (callbacks_ s) as [|callbacks rest] eqn:E; [discriminate Hl|].
  by exists i, b, callbacks, rest.
Qed.

(** [Inv] reads seven fields of the heap. *)
Lemma Inv_ext s s' :
  trace s' = trace s → callbacks_ s' = callbacks_ s →
  pendingCallback_ s' = pendingCallback_ s → started_ s' = started_ s →
  sourceBuffer_ s' = sourceBuffer_ s → sourceBuffers s' = sourceBuffers s →
  sourcebufferadded_handlers s' = sourcebufferadded_handlers s →
  Inv s → Inv s'.
Proof.
  intros Ht Hc Hp Hs Hi Hb Hh [].
  split; rewrite ?Ht, ?Hc, ?Hp, ?Hs, ?Hi, ?Hb, ?Hh; assumption.
Qed.

Lemma Inv_silent o s : silent o → Inv s → Inv (set_trace (trace s ++ [o]) s).
Proof.
  intros Ho [].
  split; simpl; rewrite ?enqueued_snoc, ?dispatched_snoc, ?invoked_snoc;
    destruct o; try done; simpl; rewrite ?app_nil_r; try assumption.
  - by rewrite (scan_snoc _ _ _ _ _ inv_excl0).
  - by rewrite (scan_snoc _ _ _ _ _ inv_excl0).
Qed.

Lemma Inv_push callback done s : Inv s → Inv (push callback done s).
Proof.
  intros []. unfold push.
  split; simpl; rewrite ?enqueued_snoc, ?dispatched_snoc, ?invoked_snoc;
    simpl; rewrite ?app_nil_r; try assumption.
  - by rewrite inv_fifo0, app_assoc.
  - by rewrite (scan_snoc _ _ _ _ _ inv_excl0).
Qed.

Lemma Inv_dispatch s : can_dispatch s = true → Inv s → Inv (dispatch s).
Proof.
  intros (i & b & [callback done] & rest & Hi & Hb & Hu & Hp & Hq & Hs)%can_dispatch_true [].
  unfold dispatch. rewrite Hq, Hi.
  split; simpl; rewrite ?enqueued_snoc, ?dispatched_snoc, ?invoked_snoc;
    simpl; rewrite ?app_nil_r.
  - by rewrite inv_fifo0, Hq, <- app_assoc.
  - rewrite dones_app, inv_once0, Hp. simpl. rewrite app_nil_r.
    unfold dones. simpl. by destruct done.
  - rewrite (scan_snoc _ _ _ _ _ inv_excl0), Hp. done.
  - congruence.
  - by rewrite Hi.
  - by rewrite Hi.
  - intros j Hj. rewrite length_alter. by apply inv_ref0.
  - intros H. by apply app_eq_nil in H as [_ ?].
Qed.

Lemma Inv_run_queue s : Inv s → Inv (run_queue s).
Proof.
  unfold run_queue. destruct (can_dispatch s) eqn:E; [|done]. by apply Inv_dispatch.
Qed.

Lemma Inv_alter f i s :
  (∀ b, sb_updating b = false → sb_updating (f b) = false) →
  Inv s → Inv (set_sourceBuffers (alter f i (sourceBuffers s)) s).
Proof.
  intros Hf []. split; simpl; try assumption.
  - intros j Hj. rewrite length_alter. by apply inv_ref0.
  - intros H. apply Forall_alter; auto.
Qed.

(** ** The public methods, one equation each *)

Lemma abort_eq done s :
  abort done s =
  Normal tt (if processedAppend_ s then run_queue (push sourceBuffer_abort done s) else s).
Proof.
  unfold abort, bind, get. destruct (processedAppend_ s); [|done]. apply queueCallback__eq.
Qed.

Lemma appendBuffer_eq bytes done s :
  appendBuffer bytes done s =
  Normal tt (run_queue (push (sourceBuffer_appendBuffer bytes) done (set_processedAppend_ true s))).
Proof. unfold appendBuffer, bind, modify. apply queueCallback__eq. Qed.

Lemma remove_eq start end_ done s :
  remove start end_ done s =
  Normal tt (if processedAppend_ s
             then run_queue (push (sourceBuffer_remove start end_) (Some (default noop done)) s)
             else s).
Proof.
  unfold remove, bind, get. destruct (processedAppend_ s); [|done]. apply queueCallback__eq.
Qed.

Lemma timestampOffset_eq offset s :
  timestampOffset offset s =
  match offset with
  | Some offset =>
      Normal offset
        (set_timestampOffset_ offset
           (run_queue (push (sourceBuffer_set_timestampOffset offset) None s)))
  | None => Normal (timestampOffset_ s) s
  end.
Proof.
  unfold timestampOffset. destruct offset as [offset|]; [|done].
  unfold bind at 1 2. by rewrite queueCallback__eq.
Qed.

Lemma dispose_eq s :
  dispose s =
  match sourceBuffer_ s, the_sourceBuffer s with
  | Some i, Some _ => Normal tt (disposed i s)
  | _, _ => Throw TypeError s
  end.
Proof.
  unfold dispose, bind, get, on_sourceBuffer_, the_sourceBuffer, disposed.
  destruct (sourceBuffer_ s) as [i|] eqn:Hi; [|done].
  destruct (sourceBuffers s !! i) as [b|] eqn:Hb; [|done].
  simpl. rewrite Hi. rewrite list_lookup_alter_eq, Hb. simpl.
  destruct (ReadyState_eqb (readyState s) open); [|done].
  unfold observe, modify. simpl. rewrite Hi, list_lookup_alter_eq, Hb. done.
Qed.

(** ** The invariant is kept *)

Lemma preserves_ret {A} P (a : A) : preserves P (ret a).
Proof. by intros s. Qed.

Lemma preserves_get {A} P (f : State → A) : preserves P (get f).
Proof. by intros s. Qed.

Lemma preserves_bind {A B} P (m : M A) (k : A → M B) :
  preserves P m → (∀ a, preserves P (k a)) → preserves P (bind m k).
Proof.
  intros Hm Hk s Hs. unfold bind. specialize (Hm s Hs).
  destruct (m s) as [a s'|e s']; [by apply Hk|done].
Qed.

Lemma preserves_swallow {A} P (m : M A) : preserves P m → preserves P (swallow m).
Proof. intros Hm s Hs. by apply Hm. Qed.

Lemma preserves_for_each {A} P (l : list A) (f : A → M unit) :
  (∀ x, preserves P (f x)) → preserves P (for_each l f).
Proof.
  intros Hf. induction l as [|x l IH]; [apply preserves_ret|].
  simpl. apply preserves_bind; auto.
Qed.

Lemma preserves_times P n (m : M unit) : preserves P m → preserves P (times n m).
Proof.
  intros Hm. induction n as [|n IH]; [apply preserves_ret|].
  simpl. apply preserves_bind; auto.
Qed.

Lemma Inv_runCallback_ : preserves Inv runCallback_.
Proof. intros s Hs. rewrite runCallback__eq. by apply Inv_run_queue. Qed.

Lemma Inv_dispose : preserves Inv dispose.
Proof.
  intros s Hs. rewrite dispose_eq.
  destruct (sourceBuffer_ s) as [i|]; [|done].
  destruct (the_sourceBuffer s); [|done]. simpl. unfold disposed.
  assert (Inv (set_sourceBuffers
     (alter (SourceBuffer_removeEventListener (onUpdateendCallback_ s)) i (sourceBuffers s)) s))
    as H1 by (by apply Inv_alter).
  destruct (ReadyState_eqb (readyState s) open); [|done].
  apply (Inv_alter (SourceBuffer_run sourceBuffer_abort) i) in H1; [|done].
  apply (Inv_silent AbortRequested) in H1; [|done].
  revert H1. by apply Inv_ext.
Qed.

Lemma Inv_call c : preserves Inv (call c).
Proof.
  intros s Hs. apply (Inv_silent (Called c)) in Hs; [|done].
  unfold call, bind at 1, observe, modify.
  destruct c as [done|bytes done|start end_ done|offset|].
  - rewrite abort_eq. simpl. destruct (processedAppend_ s); [|done].
    by apply Inv_run_queue, Inv_push.
  - rewrite appendBuffer_eq. simpl. apply Inv_run_queue, Inv_push.
    revert Hs. by apply Inv_ext.
  - rewrite remove_eq. simpl. destruct (processedAppend_ s); [|done].
    by apply Inv_run_queue, Inv_push.
  - unfold bind. rewrite timestampOffset_eq. destruct offset as [offset|]; [|done].
    simpl. eapply Inv_ext; [..|apply Inv_run_queue, Inv_push, Hs]; done.
  - by apply Inv_dispose.
Qed.

(** *** The handler of ['updateend'] *)

Lemma updateend_handler_eq user s :
  updateend_handler user s =
  (for_each (reentrant_calls user s) call;; runCallback_) (acknowledged s).
Proof.
  unfold updateend_handler, reentrant_calls, acknowledged, call_callback.
  unfold bind, get, modify, observe. simpl.
  by destruct (pendingCallback_ s).
Qed.

Lemma Inv_acknowledged s : Inv s → Inv (acknowledged s).
Proof.
  intros []. unfold acknowledged.
  destruct (pendingCallback_ s) as [done|] eqn:Hp;
    split; simpl; rewrite ?enqueued_snoc, ?dispatched_snoc, ?invoked_snoc;
    simpl; rewrite ?enqueued_snoc, ?dispatched_snoc, ?invoked_snoc;
    simpl; rewrite ?app_nil_r; try assumption.
  - by rewrite !scan_app, inv_excl0.
  - rewrite inv_once0. simpl. by rewrite app_nil_r.
  - by rewrite scan_app, inv_excl0.
Qed.

Lemma Inv_updateend_handler user : preserves Inv (updateend_handler user).
Proof.
  intros s Hs. rewrite updateend_handler_eq.
  apply preserves_bind; [|intros _; apply Inv_runCallback_|by apply Inv_acknowledged].
  apply preserves_for_each, Inv_call.
Qed.

(** *** Starting, and creating the buffer *)

Lemma start__eq s :
  start_ s =
  match sourceBuffer_ s, the_sourceBuffer s with
  | Some i, Some _ => Normal tt (run_queue (listening i s))
  | _, _ =>
      Throw TypeError
        (set_onUpdateendCallback_ (Some (next_closure s))
           (set_next_closure (S (next_closure s)) (set_started_ true s)))
  end.
Proof.
  unfold start_, bind, get, modify, on_sourceBuffer_, the_sourceBuffer, listening. simpl.
  destruct (sourceBuffer_ s) as [i|]; [|done].
  destruct (sourceBuffers s !! i); [|done]. apply runCallback__eq.
Qed.

Lemma the_sourceBuffer_is_Some s : Inv_buffer s → is_Some (the_sourceBuffer s).
Proof.
  intros [[] [i Hi]]. unfold the_sourceBuffer. rewrite Hi.
  by apply lookup_lt_is_Some, inv_ref0.
Qed.

Lemma sourceBuffer__run_queue s : sourceBuffer_ (run_queue s) = sourceBuffer_ s.
Proof.
  unfold run_queue, dispatch. destruct (can_dispatch s); [|done].
  destruct (callbacks_ s); [done|]. by destruct (sourceBuffer_ s) eqn:E.
Qed.

Lemma Inv_listening i s : sourceBuffer_ s = Some i → Inv s → Inv (listening i s).
Proof.
  intros Hi Hs. apply (Inv_alter (SourceBuffer_addEventListener (next_closure s)) i) in Hs; [|done].
  destruct Hs. unfold listening. split; simpl in *; try assumption; done.
Qed.

Lemma Inv_buffer_start_ : preserves Inv_buffer start_.
Proof.
  intros s Hs. pose proof (the_sourceBuffer_is_Some s Hs) as [b Hb].
  destruct Hs as [Hs [i Hi]]. rewrite start__eq, Hi, Hb. simpl. split.
  - by apply Inv_run_queue, Inv_listening.
  - rewrite sourceBuffer__run_queue. simpl. by rewrite Hi.
Qed.

Lemma Inv_buffer_trigger : preserves Inv_buffer sourceBufferEmitter_trigger.
Proof.
  apply preserves_bind; [apply preserves_get|]. intros n.
  apply preserves_times, preserves_swallow, Inv_buffer_start_.
Qed.

Lemma Inv_trigger : preserves Inv sourceBufferEmitter_trigger.
Proof.
  intros s Hs. unfold sourceBufferEmitter_trigger, bind, get.
  destruct (sourcebufferadded_handlers s) as [|n] eqn:Hn; [done|].
  apply (preserves_times Inv_buffer (S n) (swallow start_)).
  - apply preserves_swallow, Inv_buffer_start_.
  - split; [done|]. apply (inv_handlers s Hs). lia.
Qed.

Lemma Inv_buffer_createSourceBuffer_ mimeType sourceBufferEmitter s :
  Inv s → Inv_buffer (state_of (createSourceBuffer_ mimeType sourceBufferEmitter s)).
Proof.
  intros Hs. unfold createSourceBuffer_, MediaSource_addSourceBuffer.
  unfold bind at 1 2 3 4, get, modify, ret. simpl.
  set (s1 := set_sourceBuffer_ _ _).
  assert (Inv_buffer s1) as H1.
  { destruct Hs. subst s1. split; [split|]; simpl; try assumption; try done.
    - intros i [= <-]. rewrite length_app. simpl. lia.
    - intros H. apply Forall_app. split; [auto|]. by repeat constructor. }
  clearbody s1. destruct sourceBufferEmitter; [|by apply Inv_buffer_start_].
  revert s1 H1. apply (preserves_bind Inv_buffer); [apply Inv_buffer_trigger|]. intros _.
  apply preserves_bind; [apply preserves_get|]. intros n.
  destruct (n <? 2); [|apply Inv_buffer_start_].
  intros s1 [[] H1]. split; [split|]; simpl; try assumption; done.
Qed.

Lemma Inv_createSourceBuffer_ mimeType sourceBufferEmitter :
  preserves Inv (createSourceBuffer_ mimeType sourceBufferEmitter).
Proof. intros s Hs. by apply Inv_buffer_createSourceBuffer_. Qed.

Lemma Inv_constructor readyState0 others mimeType type sourceBufferEmitter :
  Inv (state_of (constructor readyState0 others mimeType type sourceBufferEmitter)).
Proof.
  unfold constructor. set (this := mkState _ _ _ _ _ _ _ _ _ _ _ _ _ _ _).
  assert (Inv this) as H0.
  { split; simpl; try done; try lia.
    intros _. apply Forall_replicate. done. }
  clearbody this. destruct (ReadyState_eqb readyState0 closed).
  - simpl. revert H0. by apply Inv_ext.
  - by apply Inv_createSourceBuffer_.
Qed.

Lemma Inv_step user e s : Inv s → Inv (step user e s).
Proof.
  intros Hs. unfold step. destruct e as [c| |r|mimeType| |i|i failed].
  - by apply Inv_call.
  - unfold fire_sourceopen. revert s Hs. apply (preserves_bind Inv).
    { intros s Hs. simpl. revert Hs. by apply Inv_ext. }
    intros _. apply preserves_bind; [apply preserves_get|]. intros ls.
    apply preserves_for_each. intros l. apply preserves_swallow, Inv_createSourceBuffer_.
  - simpl. revert Hs. by apply Inv_ext.
  - unfold MediaSource_addSourceBuffer, bind, get, modify, ret. simpl.
    destruct Hs. split; simpl; try assumption.
    + intros i Hi. rewrite length_app. apply inv_ref0 in Hi. lia.
    + intros H. apply Forall_app. split; [auto|]. by repeat constructor.
  - by apply Inv_trigger.
  - simpl. by apply Inv_alter.
  - unfold fire_updateend. revert s Hs.
    apply (preserves_bind Inv); [apply preserves_get|]. intros hs.
    apply preserves_for_each. intros h.
    apply preserves_bind; [apply preserves_get|]. intros [|]; [|apply preserves_ret].
    apply preserves_swallow, Inv_updateend_handler.
Qed.

Lemma Inv_run user t s : Inv s → Inv (run user t s).
Proof.
  revert s. induction t as [|e t IH]; intros s Hs; [done|].
  simpl. by apply IH, Inv_step.
Qed.

Lemma reachable_Inv user s : reachable user s → Inv s.
Proof.
  intros (readyState0 & others & mimeType & type & sourceBufferEmitter & t & ->).
  apply Inv_run, Inv_constructor.
Qed.

(** ** Order and exclusivity *)

Lemma Inv_owed s : Inv s → dones (enqueued (trace s)) = invoked (trace s) ++ owed s.
Proof.
  intros []. unfold owed. by rewrite inv_fifo0, dones_app, inv_once0, <- app_assoc.
Qed.

Lemma scan_every_operation t b :
  Forall (λ x, truthy x.2 = true) (dispatched t) →
  scan every_operation b t = scan with_callback b t.
Proof.
  revert b. induction t as [|o t IH]; intros b Ht; [done|].
  destruct o; simpl in *; try by apply IH.
  apply Forall_cons in Ht as [Hd Ht]. simpl in Hd.
  destruct b; [done|].
  change (every_operation callback done) with true.
  change (with_callback callback done) with (truthy done). rewrite Hd. by apply IH.
Qed.

Lemma four_conditions_can_dispatch s : Inv s → four_conditions s = can_dispatch s.
Proof.
  intros Hs. unfold four_conditions, can_dispatch, updating, resource_busy.
  destruct (started_ s) eqn:Hst; [|by rewrite !andb_false_r].
  destruct (the_sourceBuffer_is_Some s) as [b ->].
  { split; [done|]. by apply inv_buffer. }
  destruct (callbacks_ s); simpl; [by rewrite !andb_false_r|].
  by destruct (sb_updating b), (pendingCallback_ s).
Qed.

(** ** Relations every internal step respects *)

Section Respects.
Context (R : relation State) `{!PreOrder R}.

Lemma respects_ret {A} (a : A) : respects R (ret a).
Proof. by intros s. Qed.

Lemma respects_get {A} (f : State → A) : respects R (get f).
Proof. by intros s. Qed.

Lemma respects_modify f : (∀ s, R s (f s)) → respects R (modify f).
Proof. intros Hf s. apply Hf. Qed.

Lemma respects_bind {A B} (m : M A) (k : A → M B) :
  respects R m → (∀ a, respects R (k a)) → respects R (bind m k).
Proof.
  intros Hm Hk s. unfold bind. specialize (Hm s).
  destruct (m s) as [a s'|e s']; [|done]. by etrans; [|apply Hk].
Qed.

Lemma respects_swallow {A} (m : M A) : respects R m → respects R (swallow m).
Proof. intros Hm s. apply Hm. Qed.

Lemma respects_for_each {A} (l : list A) (f : A → M unit) :
  (∀ x, respects R (f x)) → respects R (for_each l f).
Proof.
  intros Hf. induction l as [|x l IH]; [apply respects_ret|].
  simpl. apply respects_bind; auto.
Qed.

Lemma respects_times n (m : M unit) : respects R m → respects R (times n m).
Proof.
  intros Hm. induction n as [|n IH]; [apply respects_ret|].
  simpl. apply respects_bind; auto.
Qed.

(** A relation that reads only the history and the two fields a public
    call sets, and does not mind a dispatch. *)
Hypothesis R_fields : ∀ s s',
  trace s' = trace s → timestampOffset_ s' = timestampOffset_ s →
  processedAppend_ s' = processedAppend_ s → R s s'.
Hypothesis R_dispatched : ∀ s callback done,
  R s (set_trace (trace s ++ [Dispatched callback done]) s).

Lemma R_run_queue s : R s (run_queue s).
Proof.
  unfold run_queue, dispatch. destruct (can_dispatch s); [|done].
  destruct (callbacks_ s) as [|callbacks rest]; [done|].
  destruct (sourceBuffer_ s); [|done].
  etrans; [apply (R_dispatched s callbacks.1 callbacks.2)|]. by apply R_fields.
Qed.

Lemma respects_runCallback_ : respects R runCallback_.
Proof. intros s. rewrite runCallback__eq. apply R_run_queue. Qed.

Lemma respects_on_sourceBuffer_ f : respects R (on_sourceBuffer_ f).
Proof.
  intros s. unfold on_sourceBuffer_.
  destruct (sourceBuffer_ s); [|done]. destruct (the_sourceBuffer s); [|done].
  by apply R_fields.
Qed.

Lemma respects_start_ : respects R start_.
Proof.
  unfold start_.
  apply respects_bind; [apply respects_modify; intros s; by apply R_fields|]. intros _.
  apply respects_bind; [apply respects_get|]. intros h.
  apply respects_bind; [apply respects_modify; intros s; by apply R_fields|]. intros _.
  apply respects_bind; [apply respects_modify; intros s; by apply R_fields|]. intros _.
  apply respects_bind; [apply respects_on_sourceBuffer_|]. intros _.
  apply respects_runCallback_.
Qed.

Lemma respects_trigger : respects R sourceBufferEmitter_trigger.
Proof.
  apply respects_bind; [apply respects_get|]. intros n.
  apply respects_times, respects_swallow, respects_start_.
Qed.

Lemma respects_createSourceBuffer_ mimeType sourceBufferEmitter :
  respects R (createSourceBuffer_ mimeType sourceBufferEmitter).
Proof.
  unfold createSourceBuffer_, MediaSource_addSourceBuffer.
  apply respects_bind.
  { apply respects_bind; [apply respects_get|]. intros n.
    apply respects_bind; [apply respects_modify; intros s; by apply R_fields|].
    intros _. apply respects_ret. }
  intros i.
  apply respects_bind; [apply respects_modify; intros s; by apply R_fields|]. intros _.
  destruct sourceBufferEmitter; [|apply respects_start_].
  apply respects_bind; [apply respects_trigger|]. intros _.
  apply respects_bind; [apply respects_get|]. intros n.
  destruct (n <? 2); [apply respects_modify; intros s; by apply R_fields|apply respects_start_].
Qed.

Lemma respects_constructor readyState0 others mimeType type sourceBufferEmitter :
  R (mkState [] None 0%float false type mimeType false None None
       readyState0 (replicate others (SourceBuffer_new "")) [] 0 0 [])
    (state_of (constructor readyState0 others mimeType type sourceBufferEmitter)).
Proof.
  unfold constructor. destruct (ReadyState_eqb readyState0 closed).
  - by apply R_fields.
  - apply respects_createSourceBuffer_.
Qed.

Lemma R_step_internal user e s : internal e → R s (step user e s).
Proof.
  intros He. unfold step. destruct e as [c| |r|mimeType| |i|i failed]; try done.
  - revert s. unfold fire_sourceopen.
    apply respects_bind; [apply respects_modify; intros s; by apply R_fields|]. intros _.
    apply respects_bind; [apply respects_get|]. intros ls.
    apply respects_for_each. intros l. apply respects_swallow, respects_createSourceBuffer_.
  - by apply R_fields.
  - by apply R_fields.
  - apply respects_trigger.
  - by apply R_fields.
Qed.
End Respects.

(** ** What the public calls alone decide *)

#[local] Instance frame_preorder : PreOrder frame.
Proof.
  split; [done|]. intros s1 s2 s3 (?&?&?) (?&?&?). repeat split; congruence.
Qed.

Lemma frame_fields s s' :
  trace s' = trace s → timestampOffset_ s' = timestampOffset_ s →
  processedAppend_ s' = processedAppend_ s → frame s s'.
Proof. intros Ht ??. split; [|done]. by rewrite Ht. Qed.

Lemma frame_dispatched s callback done :
  frame s (set_trace (trace s ++ [Dispatched callback done]) s).
Proof. split; [|done]. simpl. rewrite calls_snoc. simpl. by rewrite app_nil_r. Qed.

Lemma frame_run_queue s : frame s (run_queue s).
Proof. apply (R_run_queue frame frame_fields frame_dispatched). Qed.

Lemma frame_push callback done s : frame s (push callback done s).
Proof. split; [|done]. simpl. rewrite calls_snoc. simpl. by rewrite app_nil_r. Qed.

Lemma Inv_calls_frame s s' : frame s s' → Inv_calls s → Inv_calls s'.
Proof.
  intros (Hc & Ho & Ha) []. split.
  - rewrite Ho, inv_offset0. unfold cached_offset, offsets. by rewrite Hc.
  - rewrite Ha, inv_append0. unfold append_called. by rewrite Hc.
Qed.

Lemma framed_preserves {A} (m : M A) : respects frame m → preserves Inv_calls m.
Proof. intros Hm s Hs. by apply (Inv_calls_frame s). Qed.

Lemma call_eq c s :
  call c s =
  match c with
  | CallAbort done => abort done
  | CallAppendBuffer bytes done => appendBuffer bytes done
  | CallRemove start end_ done => remove start end_ done
  | CallTimestampOffset offset => timestampOffset offset;; ret tt
  | CallDispose => dispose
  end (set_trace (trace s ++ [Called c]) s).
Proof. done. Qed.

Lemma queued_calls callback done s :
  calls (trace (run_queue (push callback done s))) = calls (trace s).
Proof.
  destruct (frame_run_queue (push callback done s)) as (-> & _).
  by destruct (frame_push callback done s) as (-> & _).
Qed.

Lemma queued_timestampOffset_ callback done s :
  timestampOffset_ (run_queue (push callback done s)) = timestampOffset_ s.
Proof. by destruct (frame_run_queue (push callback done s)) as (_ & -> & _). Qed.

Lemma queued_processedAppend_ callback done s :
  processedAppend_ (run_queue (push callback done s)) = processedAppend_ s.
Proof. by destruct (frame_run_queue (push callback done s)) as (_ & _ & ->). Qed.

(** A public call adds itself to the calls, caches a given offset and
    remembers an append. *)
Lemma call_effect c s :
  let s' := state_of (call c s) in
  calls (trace s') = calls (trace s) ++ [c]
  ∧ timestampOffset_ s' = default (timestampOffset_ s) (as_offset c)
  ∧ processedAppend_ s' = processedAppend_ s || is_append c.
Proof.
  rewrite call_eq.
  destruct c as [done|bytes done|start end_ done|offset|]; simpl.
  - rewrite abort_eq. simpl. rewrite orb_false_r.
    destruct (processedAppend_ s) eqn:Hp;
      rewrite ?queued_calls, ?queued_timestampOffset_, ?queued_processedAppend_;
      simpl; by rewrite calls_snoc.
  - rewrite appendBuffer_eq. simpl. rewrite orb_true_r.
    rewrite ?queued_calls, ?queued_timestampOffset_, ?queued_processedAppend_.
    simpl. by rewrite calls_snoc.
  - rewrite remove_eq. simpl. rewrite orb_false_r.
    destruct (processedAppend_ s) eqn:Hp;
      rewrite ?queued_calls, ?queued_timestampOffset_, ?queued_processedAppend_;
      simpl; by rewrite calls_snoc.
  - unfold bind. rewrite timestampOffset_eq. rewrite orb_false_r.
    destruct offset as [offset|]; simpl;
      rewrite ?queued_calls, ?queued_timestampOffset_, ?queued_processedAppend_;
      simpl; by rewrite calls_snoc.
  - rewrite dispose_eq. simpl. rewrite orb_false_r.
    destruct (sourceBuffer_ s) as [i|]; [|simpl; by rewrite calls_snoc].
    destruct (the_sourceBuffer _); [|simpl; by rewrite calls_snoc]. simpl. unfold disposed.
    destruct (ReadyState_eqb _ open); simpl; rewrite !calls_snoc; simpl;
      by rewrite ?app_nil_r.
Qed.

Lemma Inv_calls_call c : preserves Inv_calls (call c).
Proof.
  intros s []. destruct (call_effect c s) as (Hc & Ho & Ha). split.
  - rewrite Ho, inv_offset0. unfold cached_offset, offsets. rewrite Hc, omap_app. simpl.
    destruct (as_offset c) as [offset|]; simpl; [by rewrite last_snoc|by rewrite app_nil_r].
  - rewrite Ha, inv_append0. unfold append_called. rewrite Hc, existsb_app. simpl.
    by rewrite orb_false_r.
Qed.

Lemma Inv_calls_updateend_handler user : preserves Inv_calls (updateend_handler user).
Proof.
  intros s Hs. rewrite updateend_handler_eq.
  apply preserves_bind;
    [apply preserves_for_each, Inv_calls_call
    |intros _; apply framed_preserves, (respects_runCallback_ frame frame_fields frame_dispatched)|].
  revert Hs. apply Inv_calls_frame. unfold acknowledged.
  destruct (pendingCallback_ s); (split; [|done]); simpl; rewrite !calls_snoc; simpl;
    by rewrite ?app_nil_r.
Qed.

Lemma Inv_calls_constructor readyState0 others mimeType type sourceBufferEmitter :
  Inv_calls (state_of (constructor readyState0 others mimeType type sourceBufferEmitter)).
Proof.
  unfold constructor. set (this := mkState _ _ _ _ _ _ _ _ _ _ _ _ _ _ _).
  assert (Inv_calls this) as H0 by done.
  clearbody this. destruct (ReadyState_eqb readyState0 closed).
  - simpl. revert H0. by apply Inv_calls_frame.
  - revert H0.
    apply framed_preserves, (respects_createSourceBuffer_ frame frame_fields frame_dispatched).
Qed.

Lemma Inv_calls_step user e s : Inv_calls s → Inv_calls (step user e s).
Proof.
  intros Hs. destruct e as [c| |r|mimeType| |i|i failed];
    try (revert Hs; by apply Inv_calls_frame, (R_step_internal frame frame_fields frame_dispatched)).
  - by apply Inv_calls_call.
  - unfold step, fire_updateend. revert s Hs.
    apply (preserves_bind Inv_calls); [apply preserves_get|]. intros hs.
    apply preserves_for_each. intros h.
    apply preserves_bind; [apply preserves_get|]. intros [|]; [|apply preserves_ret].
    apply preserves_swallow, Inv_calls_updateend_handler.
Qed.

Lemma Inv_calls_run user t s : Inv_calls s → Inv_calls (run user t s).
Proof.
  revert s. induction t as [|e t IH]; intros s Hs; [done|].
  simpl. by apply IH, Inv_calls_step.
Qed.

(** ** Relations every public call respects *)

Ltac from_left lem := lazymatch goal with |- _ ?a _ => apply (lem a) end.

Section Calls.
Context (R : relation State) `{!PreOrder R}.

(** [R] does not mind what a public method may do: note that it was
    called, set its two flags, queue, dispatch, and touch the buffers
    that exist. *)
Hypothesis R_observe : ∀ s o,
  as_invoked o = None → o ≠ Updateend → R s (set_trace (trace s ++ [o]) s).
Hypothesis R_callbacks_ : ∀ s q, R s (set_callbacks_ q s).
Hypothesis R_pendingCallback_ : ∀ s p, R s (set_pendingCallback_ p s).
Hypothesis R_sourceBuffers : ∀ s f i,
  (∀ b, sb_listeners (f b) ⊆ sb_listeners b) →
  R s (set_sourceBuffers (alter f i (sourceBuffers s)) s).
Hypothesis R_timestampOffset_ : ∀ s v, R s (set_timestampOffset_ v s).
Hypothesis R_processedAppend_ : ∀ s, R s (set_processedAppend_ true s).

Lemma R_push callback done s : R s (push callback done s).
Proof.
  unfold push. etrans; [apply (R_callbacks_ s (callbacks_ s ++ [(callback, done)]))|].
  by from_left R_observe.
Qed.

Lemma R_queue s : R s (run_queue s).
Proof.
  unfold run_queue, dispatch. destruct (can_dispatch s); [|done].
  destruct (callbacks_ s) as [|callbacks rest]; [done|].
  destruct (sourceBuffer_ s) as [i|]; [|done].
  etrans; [apply (R_callbacks_ s rest)|].
  etrans; [apply (R_pendingCallback_ _ callbacks.2)|].
  etrans; [by apply (R_observe _ (Dispatched callbacks.1 callbacks.2))|].
  from_left R_sourceBuffers. intros b. by destruct callbacks.1.
Qed.

Lemma R_disposed i s : R s (disposed i s).
Proof.
  unfold disposed.
  assert (∀ b, sb_listeners (SourceBuffer_removeEventListener (onUpdateendCallback_ s) b)
               ⊆ sb_listeners b) as Hr.
  { intros b. simpl. destruct (onUpdateendCallback_ s); [|done].
    intros h. rewrite list_elem_of_filter. tauto. }
  destruct (ReadyState_eqb (readyState s) open); [|by apply R_sourceBuffers].
  etrans; [by apply (R_sourceBuffers s _ i Hr)|].
  etrans; [by apply (R_observe _ AbortRequested)|].
  by from_left R_sourceBuffers.
Qed.

Lemma respects_call c : respects R (call c).
Proof.
  intros s. rewrite call_eq.
  etrans; [by apply (R_observe s (Called c))|].
  set (s0 := set_trace _ s). clearbody s0.
  destruct c as [done|bytes done|start end_ done|offset|].
  - rewrite abort_eq. simpl. destruct (processedAppend_ s0); [|done].
    etrans; [apply R_push|apply R_queue].
  - rewrite appendBuffer_eq. simpl.
    etrans; [apply R_processedAppend_|]. etrans; [apply R_push|apply R_queue].
  - rewrite remove_eq. simpl. destruct (processedAppend_ s0); [|done].
    etrans; [apply R_push|apply R_queue].
  - unfold bind. rewrite timestampOffset_eq. destruct offset as [offset|]; [|done]. simpl.
    etrans; [apply R_push|]. etrans; [apply R_queue|]. apply R_timestampOffset_.
  - rewrite dispose_eq. destruct (sourceBuffer_ s0) as [i|]; [|done].
    destruct (the_sourceBuffer s0); [|done]. apply R_disposed.
Qed.

Lemma respects_calls cs : respects R (for_each cs call).
Proof. apply respects_for_each; [done|]. apply respects_call. Qed.

(** The handler of ['updateend'], once it has called the callback. *)
Lemma R_after_acknowledged user s :
  R (acknowledged s) (state_of (updateend_handler user s)).
Proof.
  rewrite updateend_handler_eq. apply respects_bind; [done|apply respects_calls|].
  intros _ s'. rewrite runCallback__eq. apply R_queue.
Qed.
End Calls.

(** *** Public calls and handlers run no completion callback of their own *)

#[local] Instance same_invocations_preorder : PreOrder same_invocations.
Proof. split; [done|]. intros s1 s2 s3. unfold same_invocations. congruence. Qed.

Lemma same_invocations_observe s o :
  as_invoked o = None → o ≠ Updateend →
  same_invocations s (set_trace (trace s ++ [o]) s).
Proof.
  intros Ho _. unfold same_invocations. simpl.
  by rewrite invocations_snoc, Ho, app_nil_r.
Qed.

Lemma same_invocations_call c s : same_invocations s (state_of (call c s)).
Proof. by apply respects_call; [apply _|apply same_invocations_observe|..]. Qed.

Lemma invocations_updateend_handler user s :
  invocations (trace (state_of (updateend_handler user s))) =
  invocations (trace s) ++ (match pendingCallback_ s with
                            | Some done => [(done, [])]
                            | None => []
                            end).
Proof.
  pose proof (R_after_acknowledged same_invocations) as H.
  unfold same_invocations in H at 7. rewrite H; try done; [|apply same_invocations_observe].
  unfold acknowledged. destruct (pendingCallback_ s); simpl;
    rewrite !invocations_snoc; simpl; by rewrite ?app_nil_r.
Qed.

(** *** Public calls and handlers leave the life cycle alone *)

#[local] Instance same_lifecycle_preorder : PreOrder same_lifecycle.
Proof.
  split; [done|]. intros s1 s2 s3 (?&?&?&?&?&?&H12) (?&?&?&?&?&?&H23).
  unfold same_lifecycle. repeat split; try congruence.
  intros i. etrans; [apply H23|apply H12].
Qed.

Lemma same_lifecycle_sourceBuffers s f i :
  (∀ b, sb_listeners (f b) ⊆ sb_listeners b) →
  same_lifecycle s (set_sourceBuffers (alter f i (sourceBuffers s)) s).
Proof.
  intros Hf. unfold same_lifecycle. repeat split; simpl; try done; [apply length_alter|].
  intros j. unfold listeners_of. simpl.
  destruct (decide (i = j)) as [->|Hij].
  - rewrite list_lookup_alter_eq. destruct (sourceBuffers s !! j); simpl; [apply Hf|done].
  - by rewrite list_lookup_alter_ne.
Qed.

Lemma same_lifecycle_call c s : same_lifecycle s (state_of (call c s)).
Proof. by apply respects_call; [apply _|..|apply same_lifecycle_sourceBuffers|done|done]. Qed.

Lemma same_lifecycle_updateend_handler user s :
  same_lifecycle s (state_of (updateend_handler user s)).
Proof.
  transitivity (acknowledged s).
  - unfold acknowledged. by destruct (pendingCallback_ s).
  - by apply (R_after_acknowledged same_lifecycle);
      [..|apply same_lifecycle_sourceBuffers|done|done].
Qed.

Lemma same_lifecycle_fire_updateend user i s :
  same_lifecycle s (state_of (fire_updateend user i s)).
Proof.
  revert s. unfold fire_updateend.
  apply respects_bind; [apply _|apply respects_get; apply _|]. intros hs.
  apply respects_for_each; [apply _|]. intros h.
  apply respects_bind; [apply _|apply respects_get; apply _|].
  intros [|]; [|apply respects_ret; apply _].
  apply respects_swallow. intros s. apply same_lifecycle_updateend_handler.
Qed.

(** *** The trace is a history: it only grows *)

#[local] Instance grows_preorder : PreOrder grows.
Proof.
  split; [intros s; by unfold grows|]. intros s1 s2 s3. unfold grows. apply transitivity.
Qed.

Lemma grows_fields s s' : trace s' = trace s → grows s s'.
Proof. unfold grows. by intros ->. Qed.

Lemma grows_observe s o : grows s (set_trace (trace s ++ [o]) s).
Proof. unfold grows. simpl. by apply prefix_app_r. Qed.

Lemma grows_step user e s : grows s (step user e s).
Proof.
  destruct e as [c| |r|mimeType| |i|i failed];
    try (apply (R_step_internal grows);
         [intros; by apply grows_fields|intros; apply grows_observe|done]).
  - change (grows s (state_of (call c s))).
    apply (respects_call grows);
      [intros; apply grows_observe|intros; by apply grows_fields..].
  - revert s. unfold step, fire_updateend.
    apply respects_bind; [apply _|apply respects_get; apply _|]. intros hs.
    apply respects_for_each; [apply _|]. intros h.
    apply respects_bind; [apply _|apply respects_get; apply _|].
    intros [|]; [|apply respects_ret; apply _].
    apply respects_swallow. intros s. transitivity (acknowledged s).
    + unfold grows, acknowledged.
      destruct (pendingCallback_ s); simpl; by repeat apply prefix_app_r.
    + apply (R_after_acknowledged grows);
        [intros; apply grows_observe|intros; by apply grows_fields..].
Qed.

Lemma grows_run user t s : grows s (run user t s).
Proof.
  revert s. induction t as [|e t IH]; intros s; [done|].
  simpl. etrans; [apply (grows_step user e)|apply IH].
Qed.

Lemma append_called_grows s s' :
  grows s s' → append_called (trace s) = true → append_called (trace s') = true.
Proof.
  intros [k Hk]. unfold append_called, calls. rewrite Hk, omap_app, existsb_app.
  by intros ->.
Qed.

(** ** Draining the queue *)

Lemma completion_eq i h s :
  listeners_of i s = [h] →
  run no_reentrancy (completion i) s = run_queue (acknowledged (idle i s)).
Proof.
  intros Hl. simpl. unfold step at 2. simpl. fold (idle i s).
  assert (listeners_of i (idle i s) = [h]) as Hl'.
  { unfold listeners_of, idle in *. simpl. rewrite list_lookup_alter_eq.
    by destruct (sourceBuffers s !! i). }
  unfold step, fire_updateend, bind, get. rewrite Hl'. simpl. unfold bind, get.
  rewrite Hl'. rewrite bool_decide_eq_true_2 by apply list_elem_of_here. simpl.
  unfold swallow. simpl. rewrite updateend_handler_eq.
  replace (reentrant_calls no_reentrancy (idle i s)) with (@nil Call).
  - simpl. unfold bind, ret. by rewrite runCallback__eq.
  - unfold reentrant_calls. destruct (pendingCallback_ (idle i s)) as [[|id]|]; done.
Qed.

Lemma acknowledged_fields s :
  started_ (acknowledged s) = started_ s
  ∧ sourceBuffer_ (acknowledged s) = sourceBuffer_ s
  ∧ sourceBuffers (acknowledged s) = sourceBuffers s
  ∧ callbacks_ (acknowledged s) = callbacks_ s
  ∧ pendingCallback_ (acknowledged s) = None.
Proof. unfold acknowledged. by destruct (pendingCallback_ s). Qed.

Lemma can_dispatch_after_completion i h s :
  live i h s →
  can_dispatch (acknowledged (idle i s)) = negb (bool_decide (callbacks_ s = [])).
Proof.
  intros (Hst & Hi & Hl).
  assert (∃ b, sourceBuffers s !! i = Some b) as [b Hb].
  { unfold listeners_of in Hl. destruct (sourceBuffers s !! i); [by eexists|done]. }
  destruct (acknowledged_fields (idle i s)) as (E1 & E2 & E3 & E4 & E5).
  unfold can_dispatch, updating, the_sourceBuffer. rewrite E1, E2, E3, E4, E5. simpl.
  rewrite Hi, list_lookup_alter_eq, Hb, Hst. simpl. by destruct (callbacks_ s).
Qed.

Lemma live_after_completion i h s :
  live i h s → live i h (run_queue (acknowledged (idle i s))).
Proof.
  intros (Hst & Hi & Hl).
  destruct (acknowledged_fields (idle i s)) as (E1 & E2 & E3 & E4 & E5).
  simpl in E1, E2, E3, E4. rewrite Hst in E1. rewrite Hi in E2.
  assert (listeners_of i (acknowledged (idle i s)) = [h]) as Hl1.
  { unfold listeners_of in *. rewrite E3, list_lookup_alter_eq.
    by destruct (sourceBuffers s !! i). }
  set (s1 := acknowledged (idle i s)) in *. clearbody s1.
  unfold run_queue, dispatch. destruct (can_dispatch s1); [|done].
  destruct (callbacks_ s1) as [|callbacks rest]; [done|]. rewrite E2.
  repeat split; simpl; try done.
  unfold listeners_of in *. simpl. rewrite list_lookup_alter_eq.
  destruct (sourceBuffers s1 !! i); [|done]. simpl. by destruct callbacks.1.
Qed.

Lemma enqueued_acknowledged s : enqueued (trace (acknowledged s)) = enqueued (trace s).
Proof.
  unfold acknowledged. destruct (pendingCallback_ s); simpl;
    rewrite !enqueued_snoc; simpl; by rewrite ?app_nil_r.
Qed.

Lemma enqueued_run_queue s : enqueued (trace (run_queue s)) = enqueued (trace s).
Proof.
  unfold run_queue, dispatch. destruct (can_dispatch s); [|done].
  destruct (callbacks_ s) as [|callbacks rest]; [done|].
  destruct (sourceBuffer_ s); [|done]. simpl. rewrite enqueued_snoc. simpl.
  by rewrite app_nil_r.
Qed.

(** With the handler subscribed, one completion more than there are queued
    operations leaves nothing queued and nothing pending, and queues nothing
    new. *)
Lemma completions_drain i h n s :
  live i h s → length (callbacks_ s) = n →
  let s' := run no_reentrancy (completions i (S n)) s in
  callbacks_ s' = [] ∧ pendingCallback_ s' = None
  ∧ enqueued (trace s') = enqueued (trace s).
Proof.
  revert s. induction n as [|n IH]; intros s Hlive Hn.
  - change (completions i 1) with (completion i). intros s'. subst s'.
    destruct (Hlive) as (_ & _ & Hl). rewrite (completion_eq i h s Hl).
    unfold run_queue. rewrite (can_dispatch_after_completion i h s Hlive).
    apply nil_length_inv in Hn. rewrite Hn. simpl.
    destruct (acknowledged_fields (idle i s)) as (_ & _ & _ & -> & ->).
    rewrite enqueued_acknowledged. simpl. by rewrite Hn.
  - change (completions i (S (S n))) with (completion i ++ completions i (S n)).
    intros s'. subst s'. unfold run. rewrite foldl_app. fold (run no_reentrancy (completion i) s).
    fold (run no_reentrancy (completions i (S n))
            (run no_reentrancy (completion i) s)).
    destruct (Hlive) as (_ & _ & Hl). rewrite (completion_eq i h s Hl).
    pose proof (live_after_completion i h s Hlive) as Hlive'.
    destruct (IH _ Hlive') as (Hq & Hp & He).
    + unfold run_queue. rewrite (can_dispatch_after_completion i h s Hlive).
      destruct (callbacks_ s) as [|callbacks rest] eqn:Hc; [done|]. simpl.
      destruct Hlive as (_ & Hi & _).
      destruct (acknowledged_fields (idle i s)) as (_ & E2 & _ & E4 & _).
      unfold dispatch. rewrite E4, E2. simpl. rewrite Hc, Hi. simpl. simpl in Hn. lia.
    + repeat split; [done..|].
      by rewrite He, enqueued_run_queue, enqueued_acknowledged.
Qed.

(** ** The claims *)

Lemma Inv_reached user readyState0 others mimeType type sourceBufferEmitter t :
  Inv (run user t (created readyState0 others mimeType type sourceBufferEmitter)).
Proof. apply Inv_run, Inv_constructor. Qed.

Lemma Inv_calls_reached user readyState0 others mimeType type sourceBufferEmitter t :
  Inv_calls (run user t (created readyState0 others mimeType type sourceBufferEmitter)).
Proof. apply Inv_calls_run, Inv_calls_constructor. Qed.

Lemma run_app user t1 t2 s : run user (t1 ++ t2) s = run user t2 (run user t1 s).
Proof. apply foldl_app. Qed.

(** C1. Whatever public calls are made, by the caller or from inside a
    completion callback, and whenever the ['updateend'] events arrive: the
    completion callbacks of the operations queued so far are, in queue order,
    those that have been run, then the one awaiting its ['updateend'], then
    those of the operations still queued, so that each is run at most once
    and in the order of the calls.  And with the handler subscribed and
    callbacks that do not call back into the updater, one completion more
    than there are queued operations runs every callback still owed: each
    has then run exactly once, in the order the operations were queued. *)
Theorem callbacks_fire_once_in_enqueue_order :
  (∀ user readyState0 others mimeType type sourceBufferEmitter t,
     let s := run user t (created readyState0 others mimeType type sourceBufferEmitter) in
     dones (enqueued (trace s)) = invoked (trace s) ++ owed s)
  ∧ (∀ readyState0 others mimeType type sourceBufferEmitter t i h,
       let s := run no_reentrancy t
                  (created readyState0 others mimeType type sourceBufferEmitter) in
       live i h s →
       let s' := run no_reentrancy (completions i (S (length (callbacks_ s)))) s in
       owed s' = [] ∧ invoked (trace s') = dones (enqueued (trace s))).
Proof.
  split.
  - intros. apply Inv_owed, Inv_reached.
  - intros r n m ty e t i h s Hlive s'.
    destruct (completions_drain i h _ s Hlive eq_refl) as (Hq & Hp & He).
    fold s' in Hq, Hp, He.
    assert (owed s' = []) as Ho by (unfold owed; by rewrite Hq, Hp).
    split; [done|].
    assert (Inv s') as Hs'.
    { subst s' s. rewrite <- run_app. apply Inv_reached. }
    apply Inv_owed in Hs'. by rewrite Ho, app_nil_r, He in Hs'.
Qed.

(** Two appends on a started updater, then two completions: both callbacks
    have run, in the order of the calls. *)
Lemma callbacks_fire_once_in_enqueue_order_witness :
  let s := run no_reentrancy
             [Invoke (CallAppendBuffer [Byte.x01] (Some (Fn 1)));
              Invoke (CallAppendBuffer [Byte.x02] (Some (Fn 2)))]
             (created open 0 "video/mp2t" "main" false) in
  let s' := run no_reentrancy (completions 0 2) s in
  live 0 0 s ∧ owed s' = [] ∧ invoked (trace s') = [Fn 1; Fn 2].
Proof.
  split; [by repeat split|].
  apply (proj2 callbacks_fire_once_in_enqueue_order
           open 0 "video/mp2t" "main" false
           [Invoke (CallAppendBuffer [Byte.x01] (Some (Fn 1)));
            Invoke (CallAppendBuffer [Byte.x02] (Some (Fn 2)))] 0 0).
  by repeat split.
Defined.

(** C3. In every reachable heap [runCallback_] dispatches exactly when the
    updater is started, the buffer is not updating, no completion callback
    awaits its ['updateend'] and the queue is not empty.  It then removes
    the head of the queue, keeps the head's [done] in [pendingCallback_] and
    runs the head's action on the buffer; otherwise it changes nothing. *)
Theorem runCallback__dispatches_iff user s :
  reachable user s →
  if four_conditions s then
    ∃ callback done rest i,
      callbacks_ s = (callback, done) :: rest ∧ sourceBuffer_ s = Some i
      ∧ runCallback_ s =
        Normal tt
          (set_sourceBuffers (alter (SourceBuffer_run callback) i (sourceBuffers s))
             (set_trace (trace s ++ [Dispatched callback done])
                (set_pendingCallback_ done (set_callbacks_ rest s))))
  else runCallback_ s = Normal tt s.
Proof.
  intros Hs%reachable_Inv. rewrite runCallback__eq, four_conditions_can_dispatch by done.
  destruct (can_dispatch s) eqn:Hc; [|done].
  apply can_dispatch_true in Hc as (i & b & [callback done] & rest & Hi & _ & _ & _ & Hq & _).
  exists callback, done, rest, i. unfold dispatch. by rewrite Hq, Hi.
Qed.

(** An append without callback is in flight and a second one is queued when
    the buffer turns idle: the next [runCallback_] dispatches. *)
Lemma runCallback__dispatches_iff_witness :
  let s := run no_reentrancy
             [Invoke (CallAppendBuffer [Byte.x01] None);
              Invoke (CallAppendBuffer [Byte.x02] (Some (Fn 2)));
              Idle 0]
             (created open 0 "video/mp2t" "main" false) in
  reachable no_reentrancy s
  ∧ four_conditions s = true
  ∧ ∃ callback done rest i,
      callbacks_ s = (callback, done) :: rest ∧ sourceBuffer_ s = Some i
      ∧ runCallback_ s =
        Normal tt
          (set_sourceBuffers (alter (SourceBuffer_run callback) i (sourceBuffers s))
             (set_trace (trace s ++ [Dispatched callback done])
                (set_pendingCallback_ done (set_callbacks_ rest s)))).
Proof.
  intros s.
  assert (reachable no_reentrancy s) as Hs
    by (by eexists open, 0, "video/mp2t", "main", false, _).
  split; [exact Hs|]. split; [reflexivity|].
  exact (runCallback__dispatches_iff no_reentrancy s Hs).
Defined.

Lemma enqueued_queued callback done s :
  enqueued (trace (run_queue (push callback done s))) = enqueued (trace s) ++ [(callback, done)].
Proof. rewrite enqueued_run_queue. simpl. by rewrite enqueued_snoc. Qed.

Lemma SourceBuffer_idle_idle b : sb_updating b = false → SourceBuffer_idle b = b.
Proof. destruct b as [m u o l]. simpl. by intros ->. Qed.

(** What [queueCallback_] leaves: the operation at the end of the queue,
    and the head of the queue on the buffer if the queue could move. *)
Lemma queued_on_queued callback done s :
  queued_on s (callback, done) (run_queue (push callback done s)).
Proof.
  unfold queued_on. set (q := callbacks_ s ++ [(callback, done)]).
  assert (can_dispatch (push callback done s) = started_ s && negb (updating s)) as Hc.
  { unfold can_dispatch. change (updating (push callback done s)) with (updating s).
    change (callbacks_ (push callback done s)) with q.
    change (started_ (push callback done s)) with (started_ s).
    subst q. rewrite length_app. simpl.
    replace (0 <? length (callbacks_ s) + 1) with true by (symmetry; apply Nat.ltb_lt; lia).
    by rewrite andb_true_r, andb_comm. }
  assert (dispatched (trace (push callback done s)) = dispatched (trace s)) as Hd.
  { simpl. rewrite dispatched_snoc. simpl. by rewrite app_nil_r. }
  unfold run_queue. rewrite Hc. destruct (started_ s && negb (updating s)) eqn:Hgo.
  - apply can_dispatch_true in Hc as (i & b & x & rest & Hi & Hb & Hu & _ & Hq & _).
    change (callbacks_ (push callback done s)) with q in Hq.
    change (sourceBuffer_ (push callback done s)) with (sourceBuffer_ s) in Hi.
    change (sourceBuffers (push callback done s)) with (sourceBuffers s) in Hb.
    unfold dispatch. change (callbacks_ (push callback done s)) with q.
    change (sourceBuffer_ (push callback done s)) with (sourceBuffer_ s).
    rewrite Hq, Hi. simpl. rewrite dispatched_snoc, dispatched_snoc. simpl.
    rewrite app_nil_r. repeat split; [by destruct x|].
    unfold the_sourceBuffer. simpl. rewrite Hi, list_lookup_alter_eq, Hb. simpl.
    unfold served. simpl. by rewrite SourceBuffer_idle_idle.
  - by rewrite Hd.
Qed.

Lemma queued_on_held s x s' :
  started_ s && negb (updating s) = false → queued_on s x s' →
  callbacks_ s' = callbacks_ s ++ [x].
Proof. unfold queued_on. intros ->. tauto. Qed.

(** C4. As long as [appendBuffer] has never been called, [abort] and
    [remove] return without touching the heap: nothing is queued, nothing
    dispatched, no callback kept or run.  Once [appendBuffer] has been
    called, at any earlier time, [abort] and [remove] queue their operation
    ([remove] with the no-op callback when none is given): it is then the
    last element of [callbacks_], unless the queue was empty and could move,
    in which case it is on the buffer with its callback pending.  A call of
    [appendBuffer] is never forgotten. *)
Theorem remove_and_abort_wait_for_an_append :
  (∀ user readyState0 others mimeType type sourceBufferEmitter t start end_ done,
     let s := run user t (created readyState0 others mimeType type sourceBufferEmitter) in
     if append_called (trace s) then
       abort done s = queueCallback_ sourceBuffer_abort done s
       ∧ remove start end_ done s =
         queueCallback_ (sourceBuffer_remove start end_) (Some (default noop done)) s
       ∧ enqueued (trace (state_of (abort done s))) =
         enqueued (trace s) ++ [(sourceBuffer_abort, done)]
       ∧ enqueued (trace (state_of (remove start end_ done s))) =
         enqueued (trace s) ++ [(sourceBuffer_remove start end_, Some (default noop done))]
       ∧ queued_on s (sourceBuffer_abort, done) (state_of (abort done s))
       ∧ queued_on s (sourceBuffer_remove start end_, Some (default noop done))
           (state_of (remove start end_ done s))
     else abort done s = Normal tt s ∧ remove start end_ done s = Normal tt s)
  ∧ (∀ user readyState0 others mimeType type sourceBufferEmitter t1 bytes done t2,
       let s := run user (t1 ++ Invoke (CallAppendBuffer bytes done) :: t2)
                  (created readyState0 others mimeType type sourceBufferEmitter) in
       append_called (trace s) = true ∧ processedAppend_ s = true).
Proof.
  split.
  - intros user r n m ty e t start end_ done s.
    destruct (Inv_calls_reached user r n m ty e t) as [_ Ha]. fold s in Ha.
    rewrite <- Ha. rewrite abort_eq, remove_eq.
    destruct (processedAppend_ s) eqn:Hp; [|done].
    rewrite !queueCallback__eq. simpl. rewrite !enqueued_queued.
    repeat split; apply queued_on_queued.
  - intros user r n m ty e t1 bytes done t2 s.
    assert (append_called (trace s) = true) as Ha.
    { subst s. rewrite run_app. simpl.
      apply (append_called_grows _ _ (grows_run user t2 _)).
      unfold step, append_called.
      destruct (call_effect (CallAppendBuffer bytes done)
                  (run user t1 (created r n m ty e))) as (-> & _).
      rewrite existsb_app. simpl. apply orb_true_r. }
    split; [done|].
    destruct (Inv_calls_reached user r n m ty e
                (t1 ++ Invoke (CallAppendBuffer bytes done) :: t2)) as [_ Hp].
    fold s in Hp. by rewrite Hp.
Qed.

(** After an offset change, which is not an append, [remove] changes
    nothing.  With an append in flight, [remove] and [abort] are each the
    new last element of [callbacks_]. *)
Lemma remove_and_abort_wait_for_an_append_witness :
  let s0 := run no_reentrancy [Invoke (CallTimestampOffset (Some 5%float))]
              (created open 0 "video/mp2t" "main" false) in
  let s1 := run no_reentrancy [Invoke (CallAppendBuffer [Byte.x01] (Some (Fn 1)))]
              (created open 0 "video/mp2t" "main" false) in
  remove 0%float 10%float None s0 = Normal tt s0
  ∧ callbacks_ (state_of (remove 0%float 10%float None s1))
    = [(sourceBuffer_remove 0%float 10%float, Some noop)]
  ∧ callbacks_ (state_of (abort (Some (Fn 2)) s1)) = [(sourceBuffer_abort, Some (Fn 2))].
Proof.
  cbv zeta.
  pose proof (proj1 remove_and_abort_wait_for_an_append
                no_reentrancy open 0 "video/mp2t" "main" false
                [Invoke (CallTimestampOffset (Some 5%float))] 0%float 10%float None) as H0.
  pose proof (proj1 remove_and_abort_wait_for_an_append
                no_reentrancy open 0 "video/mp2t" "main" false
                [Invoke (CallAppendBuffer [Byte.x01] (Some (Fn 1)))]
                0%float 10%float (Some (Fn 2))) as H1.
  pose proof (proj1 remove_and_abort_wait_for_an_append
                no_reentrancy open 0 "video/mp2t" "main" false
                [Invoke (CallAppendBuffer [Byte.x01] (Some (Fn 1)))]
                0%float 10%float None) as H2.
  cbv zeta in H0, H1, H2.
  match type of H0 with
  | if ?c then _ else _ => replace c with false in H0 by (vm_compute; reflexivity)
  end.
  match type of H1 with
  | if ?c then _ else _ => replace c with true in H1 by (vm_compute; reflexivity)
  end.
  match type of H2 with
  | if ?c then _ else _ => replace c with true in H2 by (vm_compute; reflexivity)
  end.
  destruct H0 as (_ & H0). destruct H1 as (_ & _ & _ & _ & H1 & _).
  destruct H2 as (_ & _ & _ & _ & _ & H2).
  apply queued_on_held in H1; [|vm_compute; reflexivity].
  apply queued_on_held in H2; [|vm_compute; reflexivity].
  split; [exact H0|].
  split; [rewrite H2|rewrite H1]; vm_compute; reflexivity.
Defined.

(** C6. [timestampOffset(v)] returns [v] and a read right after it returns
    [v] again, also while the queued change of the buffer's offset has not
    been dispatched (as on an updater that is not started, where the change
    stays in the queue and the buffers are as they were).  In every reachable
    heap a read returns the value of the last [timestampOffset(v)] call and
    changes nothing. *)
Theorem timestampOffset_reads_the_last_value_set :
  (∀ s v,
     let s' := state_of (timestampOffset (Some v) s) in
     timestampOffset (Some v) s = Normal v s'
     ∧ timestampOffset None s' = Normal v s'
     ∧ (started_ s = false →
        callbacks_ s' = callbacks_ s ++ [(sourceBuffer_set_timestampOffset v, None)]
        ∧ sourceBuffers s' = sourceBuffers s))
  ∧ (∀ user readyState0 others mimeType type sourceBufferEmitter t,
       let s := run user t (created readyState0 others mimeType type sourceBufferEmitter) in
       timestampOffset None s = Normal (cached_offset (trace s)) s).
Proof.
  split.
  - intros s v. rewrite timestampOffset_eq. simpl. split; [done|].
    split; [by rewrite timestampOffset_eq|].
    intros Hst. unfold run_queue, can_dispatch. simpl. rewrite Hst.
    by rewrite andb_false_r.
  - intros user r n m ty e t s. subst s. rewrite timestampOffset_eq.
    by destruct (Inv_calls_reached user r n m ty e t) as [-> _].
Qed.

(** Before ['sourceopen'] the offset change waits in the queue, and the
    read returns the new value all the same. *)
Lemma timestampOffset_reads_the_last_value_set_witness :
  let s := created closed 0 "video/mp2t" "main" false in
  let s' := state_of (timestampOffset (Some 5%float) s) in
  started_ s = false
  ∧ timestampOffset None s' = Normal 5%float s'
  ∧ callbacks_ s' = [(sourceBuffer_set_timestampOffset 5%float, None)]
  ∧ sourceBuffers s' = [].
Proof.
  intros s s'.
  destruct (proj1 timestampOffset_reads_the_last_value_set s 5%float) as (_ & H2 & H3).
  split; [reflexivity|]. split; [exact H2|]. exact (H3 eq_refl).
Defined.

(** C10. The cached offset is 0 after construction, and in every reachable
    heap it is the value of the last [timestampOffset] call that had an
    argument, 0 if there was none: a read returns 0 until such a call is
    made, and whatever happens without such a call (an event during which
    none is made, any other public call) leaves the cached value as it
    is. *)
Theorem timestampOffset_is_zero_until_set
    user readyState0 others mimeType type sourceBufferEmitter t :
  let s0 := created readyState0 others mimeType type sourceBufferEmitter in
  let s := run user t s0 in
  timestampOffset None s0 = Normal 0%float s0
  ∧ timestampOffset_ s = default 0%float (last (offsets (trace s)))
  ∧ (offsets (trace s) = [] → timestampOffset None s = Normal 0%float s)
  ∧ (∀ e, offsets (trace (step user e s)) = offsets (trace s) →
          timestampOffset_ (step user e s) = timestampOffset_ s)
  ∧ (∀ c, as_offset c = None →
          timestampOffset_ (state_of (call c s)) = timestampOffset_ s).
Proof.
  intros s0 s.
  destruct (Inv_calls_reached user readyState0 others mimeType type sourceBufferEmitter t)
    as [Ho _]. fold s0 s in Ho. unfold cached_offset in Ho.
  split; [|split; [done|split; [|split]]].
  - rewrite timestampOffset_eq. subst s0. unfold created.
    by destruct (respects_constructor frame frame_fields frame_dispatched
                   readyState0 others mimeType type sourceBufferEmitter) as (_ & -> & _).
  - intros He. by rewrite timestampOffset_eq, Ho, He.
  - intros e He.
    destruct (Inv_calls_reached user readyState0 others mimeType type sourceBufferEmitter
                (t ++ [e])) as [Ho' _].
    rewrite run_app in Ho'. simpl in Ho'. fold s0 s in Ho'.
    unfold cached_offset in Ho'. by rewrite Ho', He, Ho.
  - intros c Hc. destruct (call_effect c s) as (_ & -> & _). by rewrite Hc.
Qed.

(** An append, a read and a completion: no offset was set, the read
    returns 0. *)
Lemma timestampOffset_is_zero_until_set_witness :
  let s := run no_reentrancy
             [Invoke (CallAppendBuffer [Byte.x01] (Some (Fn 1)));
              Invoke (CallTimestampOffset None); Idle 0; UpdateEnd 0 false]
             (created open 0 "video/mp2t" "main" false) in
  offsets (trace s) = [] ∧ timestampOffset None s = Normal 0%float s.
Proof.
  split; [reflexivity|].
  apply (timestampOffset_is_zero_until_set no_reentrancy open 0 "video/mp2t" "main" false).
  reflexivity.
Defined.

(** C8: [dispose] on an updater whose media source has not opened yet.
    [this.sourceBuffer_] is still undefined, the first statement of
    [dispose] reads a property of it, and the call throws a [TypeError]
    instead of completing; the test for [this.sourceBuffer_] on the next
    line is never reached. *)
Theorem dispose_before_sourceopen_throws others mimeType type sourceBufferEmitter :
  let s := created closed others mimeType type sourceBufferEmitter in
  sourceBuffer_ s = None ∧ dispose s = Throw TypeError s.
Proof. intros s. by rewrite dispose_eq. Qed.

(** What C8 says of an updater that has its buffer does hold: [dispose]
    completes, takes the handler off the buffer, and asks the buffer to abort
    exactly when the media source is open. *)
Lemma dispose_with_sourceBuffer s i b h :
  sourceBuffer_ s = Some i → sourceBuffers s !! i = Some b →
  onUpdateendCallback_ s = Some h →
  ∃ s', dispose s = Normal tt s'
        ∧ (h ∉ listeners_of i s')
        ∧ trace s' = trace s ++ (if ReadyState_eqb (readyState s) open
                                 then [AbortRequested] else []).
Proof.
  intros Hi Hb Hh. exists (disposed i s). rewrite dispose_eq. unfold the_sourceBuffer.
  rewrite Hi, Hb. split; [done|]. unfold disposed, listeners_of. rewrite Hh.
  destruct (ReadyState_eqb (readyState s) open); simpl;
    rewrite ?list_lookup_alter_eq, Hb; simpl; rewrite ?app_nil_r;
    (split; [|done]); rewrite list_elem_of_filter; tauto.
Qed.

(** And an ['updateend'] that arrives afterwards finds no listener: it runs
    no callback and changes nothing. *)
Lemma updateend_after_dispose user s i b h failed :
  sourceBuffer_ s = Some i → sourceBuffers s !! i = Some b →
  sb_listeners b = [h] → onUpdateendCallback_ s = Some h →
  ∃ s', dispose s = Normal tt s' ∧ step user (UpdateEnd i failed) s' = s'.
Proof.
  intros Hi Hb Hl Hh. exists (disposed i s). rewrite dispose_eq. unfold the_sourceBuffer.
  rewrite Hi, Hb. split; [done|].
  assert (listeners_of i (disposed i s) = []) as Hnone.
  { unfold disposed, listeners_of. rewrite Hh.
    destruct (ReadyState_eqb (readyState s) open); simpl;
      rewrite ?list_lookup_alter_eq, Hb; simpl; rewrite Hl;
      by rewrite filter_cons_False by (by intros ?). }
  unfold step, fire_updateend, bind, get. by rewrite Hnone.
Qed.

(** ** Waiting for the media source and for the paired buffer *)

#[local] Instance same_resources_preorder : PreOrder same_resources.
Proof.
  split; [done|]. intros s1 s2 s3 (?&?&?) (?&?&?).
  unfold same_resources. repeat split; congruence.
Qed.

Lemma same_resources_run_queue s : same_resources s (run_queue s).
Proof.
  assert (same_lifecycle s (run_queue s)) as (_ & ? & _ & ? & _ & ? & _); [|done].
  by apply (R_queue same_lifecycle); [..|apply same_lifecycle_sourceBuffers].
Qed.

Lemma same_resources_start_ : respects same_resources start_.
Proof.
  intros s. rewrite start__eq.
  destruct (sourceBuffer_ s) as [i|] eqn:Hi; [|done].
  destruct (the_sourceBuffer s); [|done]. simpl.
  etrans; [|apply same_resources_run_queue].
  unfold same_resources, listening. simpl. by rewrite length_alter.
Qed.

Lemma same_resources_trigger : respects same_resources sourceBufferEmitter_trigger.
Proof.
  apply respects_bind; [apply _|apply respects_get; apply _|]. intros n.
  by apply respects_times, respects_swallow, same_resources_start_; apply _.
Qed.

Lemma createSourceBuffer__eq mimeType sourceBufferEmitter s :
  createSourceBuffer_ mimeType sourceBufferEmitter s =
  after_addSourceBuffer sourceBufferEmitter
    (set_sourceBuffer_ (Some (length (sourceBuffers s)))
       (set_sourceBuffers (sourceBuffers s ++ [SourceBuffer_new mimeType]) s)).
Proof. done. Qed.

Lemma same_resources_after_addSourceBuffer sourceBufferEmitter :
  respects same_resources (after_addSourceBuffer sourceBufferEmitter).
Proof.
  unfold after_addSourceBuffer.
  destruct sourceBufferEmitter; [|apply same_resources_start_].
  apply respects_bind; [apply _|apply same_resources_trigger|]. intros _.
  apply respects_bind; [apply _|apply respects_get; apply _|]. intros n.
  destruct (n <? 2); [by apply respects_modify|apply same_resources_start_].
Qed.

Lemma createSourceBuffer__resources mimeType sourceBufferEmitter s :
  let s' := state_of (createSourceBuffer_ mimeType sourceBufferEmitter s) in
  sourceBuffer_ s' = Some (length (sourceBuffers s))
  ∧ length (sourceBuffers s') = S (length (sourceBuffers s))
  ∧ sourceopen_listeners s' = sourceopen_listeners s.
Proof.
  rewrite createSourceBuffer__eq.
  destruct (same_resources_after_addSourceBuffer sourceBufferEmitter
              (set_sourceBuffer_ (Some (length (sourceBuffers s)))
                 (set_sourceBuffers (sourceBuffers s ++ [SourceBuffer_new mimeType]) s)))
    as (H1 & H2 & H3).
  simpl in *. rewrite H1, H2, H3, length_app. simpl. repeat split; lia.
Qed.

Lemma dormant_same_lifecycle ls s s' : same_lifecycle s s' → dormant ls s → dormant ls s'.
Proof.
  intros (_ & Hi & Hh & Ho & _ & _ & Hl) (Di & Dh & Do & Dl).
  repeat split; [congruence..|]. intros i. specialize (Hl i). rewrite Dl in Hl.
  destruct (listeners_of i s') as [|h l]; [done|].
  specialize (Hl h (list_elem_of_here _ _)). by apply not_elem_of_nil in Hl.
Qed.

Lemma dormant_step user ls e s : e ≠ SourceOpen → dormant ls s → dormant ls (step user e s).
Proof.
  intros He Hs. destruct e as [c| |r|mimeType| |i|i failed]; try done.
  - revert Hs. apply dormant_same_lifecycle, same_lifecycle_call.
  - destruct Hs as (Di & Dh & Do & Dl). repeat split; try done. intros i.
    specialize (Dl i). unfold step, listeners_of in *. simpl.
    destruct (decide (i < length (sourceBuffers s))) as [Hlt|Hge].
    + by rewrite lookup_app_l.
    + rewrite lookup_app_r by lia. by destruct (i - length (sourceBuffers s)) as [|[|]].
  - destruct Hs as (Di & Dh & Do & Dl).
    unfold step, sourceBufferEmitter_trigger, bind, get. by rewrite Dh.
  - revert Hs. apply dormant_same_lifecycle.
    by apply (same_lifecycle_sourceBuffers s SourceBuffer_idle i).
  - revert Hs. apply dormant_same_lifecycle, same_lifecycle_fire_updateend.
Qed.

Lemma dormant_run user ls t s : SourceOpen ∉ t → dormant ls s → dormant ls (run user t s).
Proof.
  revert s. induction t as [|e t IH]; intros s Ht Hs; [done|].
  apply not_elem_of_cons in Ht as [He Ht]. simpl. apply IH; [done|].
  by apply dormant_step.
Qed.

Lemma sourceopen_creates user mimeType sourceBufferEmitter s :
  sourceopen_listeners s = [(mimeType, sourceBufferEmitter)] →
  is_Some (sourceBuffer_ (step user SourceOpen s)).
Proof.
  intros Hl. unfold step, fire_sourceopen, bind, modify, get. simpl. rewrite Hl. simpl.
  unfold bind, swallow, ret. simpl.
  by destruct (createSourceBuffer__resources mimeType sourceBufferEmitter
                 (set_readyState open s)) as (-> & _).
Qed.

Lemma no_listeners_yet others i s :
  sourceBuffers s = replicate others (SourceBuffer_new "") → listeners_of i s = [].
Proof.
  intros Hs. unfold listeners_of. rewrite Hs.
  destruct (replicate others (SourceBuffer_new "") !! i) as [b|] eqn:Hb; [|done].
  by apply lookup_replicate_1 in Hb as [-> _].
Qed.

(** C9, as stated, fails: on a media source that has ended, which is not
    open, the constructor subscribes to nothing and creates the buffer at
    once. *)
Lemma ended_media_source_gets_its_buffer_at_once :
  let s := created ended 0 "video/mp2t" "main" false in
  sourceopen_listeners s = [] ∧ sourceBuffer_ s = Some 0 ∧ length (sourceBuffers s) = 1.
Proof. by repeat split. Qed.

(** C9, amended.  On a closed media source the constructor subscribes
    to ['sourceopen'] and creates no buffer; none is created by anything that
    happens before ['sourceopen'] is fired, and one is created when it is.
    On a media source in any other state, open or ended, the constructor
    creates the buffer at once and subscribes to nothing. *)
Theorem constructor_waits_for_a_closed_media_source
    user readyState0 others mimeType type sourceBufferEmitter :
  let s := created readyState0 others mimeType type sourceBufferEmitter in
  if ReadyState_eqb readyState0 closed then
    sourceopen_listeners s = [(mimeType, sourceBufferEmitter)]
    ∧ sourceBuffer_ s = None
    ∧ length (sourceBuffers s) = others
    ∧ ∀ t, SourceOpen ∉ t →
        sourceBuffer_ (run user t s) = None
        ∧ is_Some (sourceBuffer_ (step user SourceOpen (run user t s)))
  else
    sourceopen_listeners s = []
    ∧ sourceBuffer_ s = Some others
    ∧ length (sourceBuffers s) = S others.
Proof.
  intros s. subst s. unfold created, constructor.
  set (this := mkState _ _ _ _ _ _ _ _ _ _ _ _ _ _ _).
  destruct (ReadyState_eqb readyState0 closed) eqn:Hr.
  - simpl. rewrite length_replicate. repeat split; try done.
    + eapply dormant_run; [done|]. repeat split; try done.
      intros i. by apply (no_listeners_yet others).
    + apply (sourceopen_creates user mimeType sourceBufferEmitter).
      eapply (dormant_run user [(mimeType, sourceBufferEmitter)]); [done|].
      repeat split; try done. intros i. by apply (no_listeners_yet others).
  - destruct (createSourceBuffer__resources mimeType sourceBufferEmitter this)
      as (H1 & H2 & H3).
    rewrite H1, H2, H3. subst this. simpl. by rewrite length_replicate.
Qed.

(** A closed media source: the buffer comes with ['sourceopen'], not with
    the calls made before it. *)
Lemma constructor_waits_for_a_closed_media_source_witness :
  let s := created closed 0 "video/mp2t" "main" false in
  let t := [Invoke (CallAppendBuffer [Byte.x01] (Some (Fn 1))); SourceBufferAdded] in
(SourceOpen ∉ t)
  ∧ sourceBuffer_ (run no_reentrancy t s) = None
  ∧ is_Some (sourceBuffer_ (step no_reentrancy SourceOpen (run no_reentrancy t s))).
Proof.
  intros s t.
  assert (SourceOpen ∉ t) as Ht.
  { intros H. repeat (apply elem_of_cons in H as [H|H]; [discriminate H|]).
    by apply not_elem_of_nil in H. }
  split; [exact Ht|].
  destruct (constructor_waits_for_a_closed_media_source
              no_reentrancy closed 0 "video/mp2t" "main" false) as (_ & _ & _ & H).
  exact (H t Ht).
Defined.

(** ** A completion that reports a failure *)

Lemma dispatched_acknowledged s : dispatched (trace (acknowledged s)) = dispatched (trace s).
Proof.
  unfold acknowledged. destruct (pendingCallback_ s); simpl;
    rewrite !dispatched_snoc; simpl; by rewrite ?app_nil_r.
Qed.

Lemma fire_updateend_one_listener user i h s :
  listeners_of i s = [h] →
  step user (UpdateEnd i true) s = state_of (updateend_handler user s).
Proof.
  intros Hl. unfold step, fire_updateend, bind, get. rewrite Hl. simpl. unfold bind, get.
  rewrite Hl, bool_decide_eq_true_2 by apply list_elem_of_here. by unfold swallow, ret.
Qed.

(** C7, as stated, fails: the ['updateend'] that follows a failed append
    runs the callback of the append with an empty argument list; the failure
    is handed to nobody. *)
Lemma failed_updateend_passes_no_argument :
  let s := run no_reentrancy
             [Invoke (CallAppendBuffer [Byte.x01] (Some (Fn 1))); Idle 0; UpdateEnd 0 true]
             (created open 0 "video/mp2t" "main" false) in
  invocations (trace s) = [(Fn 1, [])] ∧ failure_surfaced (trace s) = false.
Proof. by split. Qed.

(** C7, amended.  An ['updateend'] does the same whether or not it
    reports a failure.  Its handler runs the pending completion callback
    exactly once and with no argument (the failure is not passed on), and
    runs no other callback.  When that callback does not call back into the
    updater, and the updater is started, its buffer idle and its queue not
    empty, the handler then dispatches the head of the queue. *)
Theorem failed_updateend_runs_the_callback_and_goes_on user i s :
  step user (UpdateEnd i true) s = step user (UpdateEnd i false) s
  ∧ (∀ h, listeners_of i s = [h] →
          step user (UpdateEnd i true) s = state_of (updateend_handler user s))
  ∧ invocations (trace (state_of (updateend_handler user s))) =
    invocations (trace s) ++ (match pendingCallback_ s with
                              | Some done => [(done, [])]
                              | None => []
                              end)
  ∧ (∀ done callbacks rest b,
       pendingCallback_ s = Some done →
       callback_body user done (acknowledged s) = [] →
       callbacks_ s = callbacks :: rest →
       started_ s = true →
       the_sourceBuffer s = Some b → sb_updating b = false →
       let s' := state_of (updateend_handler user s) in
       dispatched (trace s') = dispatched (trace s) ++ [callbacks]
       ∧ callbacks_ s' = rest
       ∧ pendingCallback_ s' = callbacks.2).
Proof.
  split; [done|]. split; [intros h; apply (fire_updateend_one_listener user i h)|].
  split; [apply invocations_updateend_handler|].
  intros done callbacks rest b Hp Hbody Hq Hst Hb Hu s'. subst s'.
  rewrite updateend_handler_eq. unfold reentrant_calls. rewrite Hp, Hbody. simpl.
  unfold bind, ret. rewrite runCallback__eq.
  destruct (acknowledged_fields s) as (E1 & E2 & E3 & E4 & E5).
  assert (can_dispatch (acknowledged s) = true) as ->.
  { unfold can_dispatch, updating, the_sourceBuffer. rewrite E1, E2, E3, E4, E5.
    unfold the_sourceBuffer in Hb. by rewrite Hb, Hu, Hq, Hst. }
  unfold dispatch. rewrite E4, E2, Hq.
  unfold the_sourceBuffer in Hb. destruct (sourceBuffer_ s) as [j|]; [|done]. simpl.
  rewrite dispatched_snoc, dispatched_acknowledged. by destruct callbacks.
Qed.

(** Two appends, the first one in flight and failing: its callback runs
    without argument and the second append is dispatched. *)
Lemma failed_updateend_runs_the_callback_and_goes_on_witness :
  let s := run no_reentrancy
             [Invoke (CallAppendBuffer [Byte.x01] (Some (Fn 1)));
              Invoke (CallAppendBuffer [Byte.x02] (Some (Fn 2))); Idle 0]
             (created open 0 "video/mp2t" "main" false) in
  let s' := step no_reentrancy (UpdateEnd 0 true) s in
  listeners_of 0 s = [0]
  ∧ pendingCallback_ s = Some (Fn 1)
  ∧ invocations (trace s') = [(Fn 1, [])]
  ∧ dispatched (trace s')
    = [(sourceBuffer_appendBuffer [Byte.x01], Some (Fn 1));
       (sourceBuffer_appendBuffer [Byte.x02], Some (Fn 2))]
  ∧ callbacks_ s' = []
  ∧ pendingCallback_ s' = Some (Fn 2).
Proof.
  intros s s'.
  destruct (failed_updateend_runs_the_callback_and_goes_on no_reentrancy 0 s)
    as (_ & H1 & H2 & H3).
  specialize (H1 0 eq_refl).
  specialize (H3 (Fn 1) (sourceBuffer_appendBuffer [Byte.x02], Some (Fn 2)) []
                (mkSourceBuffer "video/mp2t" false 0%float [0])
                eq_refl eq_refl eq_refl eq_refl eq_refl eq_refl).
  subst s'. rewrite H1. destruct H3 as (H3 & H4 & H5).
  split; [reflexivity|]. split; [reflexivity|].
  split; [exact H2|]. split; [exact H3|]. split; [exact H4|exact H5].
Defined.

(** ** Readiness *)

Lemma awaiting_pairing_same_lifecycle s s' :
  same_lifecycle s s' → awaiting_pairing s → awaiting_pairing s'.
Proof. intros (Hs & _ & Hh & _) [??]. split; congruence. Qed.

Lemma awaiting_pairing_step user e s :
  quiet e → awaiting_pairing s → awaiting_pairing (step user e s).
Proof.
  intros He Hs. destruct e as [c| |r|mimeType| |i|i failed]; try done.
  - revert Hs. apply awaiting_pairing_same_lifecycle, same_lifecycle_call.
  - revert Hs. apply awaiting_pairing_same_lifecycle, same_lifecycle_fire_updateend.
Qed.

Lemma awaiting_pairing_run user t s :
  Forall quiet t → awaiting_pairing s → awaiting_pairing (run user t s).
Proof.
  revert s. induction t as [|e t IH]; intros s Ht Hs; [done|].
  apply Forall_cons in Ht as [He Ht]. simpl. apply IH; [done|].
  by apply awaiting_pairing_step.
Qed.

Lemma Inv_not_started s :
  Inv s → started_ s = false →
  dispatched (trace s) = [] ∧ callbacks_ s = enqueued (trace s)
  ∧ pendingCallback_ s = None
  ∧ Forall (λ b, sb_updating b = false) (sourceBuffers s).
Proof.
  intros [] Hst. specialize (inv_started0 Hst).
  rewrite inv_started0 in *. specialize (inv_idle0 eq_refl).
  repeat split; try done.
  symmetry in inv_once0. apply app_eq_nil in inv_once0 as [_ Hp].
  by destruct (pendingCallback_ s).
Qed.

(** When ['sourcebufferadded'] arrives, the updater starts and hands the
    head of its queue to the buffer. *)
Lemma sourcebufferadded_starts user s :
  Inv s → awaiting_pairing s →
  let s' := step user SourceBufferAdded s in
  started_ s' = true
  ∧ dispatched (trace s') = take 1 (callbacks_ s)
  ∧ callbacks_ s' = drop 1 (callbacks_ s).
Proof.
  intros Hinv [Hst Hh] s'.
  assert (s' = state_of (start_ s)) as ->.
  { subst s'. unfold step, sourceBufferEmitter_trigger, bind, get. by rewrite Hh. }
  destruct (Inv_not_started s Hinv Hst) as (Hd & _ & Hp & Hidle).
  destruct (inv_handlers s Hinv) as [i Hi]; [lia|].
  destruct (lookup_lt_is_Some_2 (sourceBuffers s) i) as [b Hb];
    [by apply (inv_ref s Hinv)|].
  rewrite start__eq. unfold the_sourceBuffer. rewrite Hi, Hb. simpl.
  assert (can_dispatch (listening i s) = (0 <? length (callbacks_ s))) as Hc.
  { unfold can_dispatch, updating, the_sourceBuffer, listening. simpl.
    rewrite Hi, list_lookup_alter_eq, Hb, Hp. simpl.
    rewrite (proj1 (Forall_lookup _ _) Hidle i b Hb). simpl. apply andb_true_r. }
  unfold run_queue. rewrite Hc.
  destruct (callbacks_ s) as [|[callback done] rest] eqn:Hq; simpl.
  - by rewrite Hq.
  - unfold dispatch. simpl. rewrite Hq, Hi. simpl.
    by rewrite dispatched_snoc, Hd.
Qed.

(** ** The scenarios of the specification *)

(** A: two appends with no append before.  [processedAppend_] is set by the
    first call, the appends reach the buffer in the order of the calls, and
    the first callback runs before the second. *)
Example scenario_two_appends :
  let s0 := created open 0 "video/mp2t" "main" false in
  let s1 := run no_reentrancy [Invoke (CallAppendBuffer [Byte.x01] (Some (Fn 1)))] s0 in
  let s := run no_reentrancy
             (Invoke (CallAppendBuffer [Byte.x02] (Some (Fn 2))) :: completions 0 2) s1 in
  processedAppend_ s0 = false ∧ processedAppend_ s1 = true
  ∧ dispatched (trace s)
    = [(sourceBuffer_appendBuffer [Byte.x01], Some (Fn 1));
       (sourceBuffer_appendBuffer [Byte.x02], Some (Fn 2))]
  ∧ invoked (trace s) = [Fn 1; Fn 2].
Proof. vm_compute. repeat split; reflexivity. Qed.

(** B: [remove] before any append.  Nothing is dispatched, the callback is
    not kept, the queue stays empty. *)
Example scenario_remove_before_append :
  let s0 := created open 0 "video/mp2t" "main" false in
  let s := run no_reentrancy
             (Invoke (CallRemove 0%float 10%float (Some (Fn 1))) :: completions 0 1) s0 in
  callbacks_ s = [] ∧ pendingCallback_ s = None
  ∧ enqueued (trace s) = [] ∧ invoked (trace s) = [].
Proof. vm_compute. repeat split; reflexivity. Qed.

(** D: an append in flight, [dispose], then the ['updateend'] of the
    append.  No callback runs and nothing throws. *)
Example scenario_dispose_in_flight :
  let s0 := created open 0 "video/mp2t" "main" false in
  let s := run no_reentrancy [Invoke (CallAppendBuffer [Byte.x01] (Some (Fn 1)))] s0 in
  ∃ s', dispose s = Normal tt s'
        ∧ pendingCallback_ s' = Some (Fn 1)
        ∧ listeners_of 0 s' = []
        ∧ invoked (trace (run no_reentrancy (completions 0 1) s')) = [].
Proof.
  intros s0 s. exists (disposed 0 s). vm_compute. repeat split; reflexivity.
Qed.

(** * More about the class *)

(** ** Reading a buffer that is not there *)

Lemma call_returns c s : c ≠ CallDispose → ∃ s', call c s = Normal tt s'.
Proof.
  intros Hc. rewrite call_eq. destruct c as [done|bytes done|start end_ done|offset|].
  - rewrite abort_eq. eauto.
  - rewrite appendBuffer_eq. eauto.
  - rewrite remove_eq. eauto.
  - unfold bind. rewrite timestampOffset_eq. destruct offset; eauto.
  - done.
Qed.

(** X1. [abort], [appendBuffer], [remove] and [timestampOffset] never
    read a property of an undefined [sourceBuffer_], on any heap: the
    queued action runs only after [updating()] has found the buffer, so the
    [TypeError] of such a read cannot come from them.  (The buffer's own
    methods are taken not to throw; what they may throw is a matter of the
    buffer, not of this class.)  On a reachable heap [dispose] makes that
    read exactly when the updater has no buffer yet, and completes
    otherwise. *)
Theorem only_dispose_reads_a_missing_buffer user s c :
  (c ≠ CallDispose → ∃ s', call c s = Normal tt s')
  ∧ (reachable user s →
     match sourceBuffer_ s with
     | Some _ => ∃ s', dispose s = Normal tt s'
     | None => dispose s = Throw TypeError s
     end).
Proof.
  split; [apply call_returns|]. intros Hs%reachable_Inv. rewrite dispose_eq.
  destruct (sourceBuffer_ s) as [i|] eqn:Hi; [|done].
  destruct (the_sourceBuffer_is_Some s) as [b Hb]; [split; [done|by rewrite Hi]|].
  rewrite Hb. eauto.
Qed.

(** An append in flight on a started updater: a [remove] returns, and so
    does [dispose]. *)
Lemma only_dispose_reads_a_missing_buffer_witness :
  let s := run no_reentrancy [Invoke (CallAppendBuffer [Byte.x01] (Some (Fn 1)))]
             (created open 0 "video/mp2t" "main" false) in
  (∃ s', call (CallRemove 0%float 10%float None) s = Normal tt s')
  ∧ ∃ s', dispose s = Normal tt s'.
Proof.
  intros s.
  destruct (only_dispose_reads_a_missing_buffer no_reentrancy s (CallRemove 0%float 10%float None))
    as [H1 H2].
  split; [by apply H1|].
  apply H2. by eexists open, 0, "video/mp2t", "main", false, _.
Defined.

(** ** What the constructor leaves *)

Lemma start__idle_queue i b s :
  sourceBuffer_ s = Some i → sourceBuffers s !! i = Some b → callbacks_ s = [] →
  start_ s = Normal tt (listening i s).
Proof.
  intros Hi Hb Hq. rewrite start__eq. unfold the_sourceBuffer. rewrite Hi, Hb.
  unfold run_queue, can_dispatch, listening. simpl. rewrite Hq. simpl.
  by rewrite andb_false_r.
Qed.

(** X2. The constructor starts the updater at once unless it has to wait
    for ['sourceopen'] (the media source is closed) or for its pair (an
    emitter is given and the media source holds no other buffer).  In the
    second case it has one handler on the emitter, otherwise none.  A started
    updater has one ['updateend'] listener on its buffer, the one it keeps in
    [onUpdateendCallback_].  Nothing is queued or dispatched. *)
Theorem constructor_starts_unless_it_waits
    readyState0 others mimeType type sourceBufferEmitter :
  let s := created readyState0 others mimeType type sourceBufferEmitter in
  let waits := ReadyState_eqb readyState0 closed in
  let pairs := sourceBufferEmitter && (others =? 0) in
  started_ s = negb waits && negb pairs
  ∧ sourcebufferadded_handlers s = (if negb waits && pairs then 1 else 0)
  ∧ trace s = []
  ∧ callbacks_ s = []
  ∧ if started_ s
    then onUpdateendCallback_ s = Some 0 ∧ listeners_of others s = [0]
    else onUpdateendCallback_ s = None.
Proof.
  intros s waits pairs. subst s waits pairs. unfold created, constructor.
  set (this := mkState _ _ _ _ _ _ _ _ _ _ _ _ _ _ _).
  destruct (ReadyState_eqb readyState0 closed); [done|].
  rewrite createSourceBuffer__eq. set (s1 := set_sourceBuffer_ _ _).
  assert (sourceBuffers s1 !! others = Some (SourceBuffer_new mimeType)) as Hb.
  { subst s1 this. simpl. rewrite lookup_app_r by (by rewrite length_replicate).
    by rewrite length_replicate, Nat.sub_diag. }
  assert (sourceBuffer_ s1 = Some others) as Hi.
  { subst s1 this. simpl. by rewrite length_replicate. }
  assert (length (sourceBuffers s1) = S others) as Hn.
  { subst s1 this. simpl. rewrite length_app, length_replicate. simpl. lia. }
  assert (callbacks_ s1 = [] ∧ trace s1 = [] ∧ next_closure s1 = 0
          ∧ sourcebufferadded_handlers s1 = 0 ∧ started_ s1 = false
          ∧ onUpdateendCallback_ s1 = None) as (Hq & Ht & Hc & Hh & Hs & Ho) by done.
  clearbody s1. clear this.
  assert (state_of (start_ s1) = listening others s1) as Hstart.
  { by rewrite (start__idle_queue others (SourceBuffer_new mimeType)). }
  assert (listeners_of others (listening others s1) = [0]) as Hl.
  { unfold listeners_of, listening. simpl. by rewrite list_lookup_alter_eq, Hb, Hc. }
  assert (started_ (listening others s1) = true
          ∧ sourcebufferadded_handlers (listening others s1) = 0
          ∧ trace (listening others s1) = [] ∧ callbacks_ (listening others s1) = []
          ∧ onUpdateendCallback_ (listening others s1) = Some 0) as (L1 & L2 & L3 & L4 & L5).
  { unfold listening. simpl. by rewrite Hh, Ht, Hq, Hc. }
  destruct sourceBufferEmitter; [|simpl; rewrite Hstart; by rewrite L1, L2, L3, L4, L5, Hl].
  assert (state_of (after_addSourceBuffer true s1) =
          if others =? 0 then set_sourcebufferadded_handlers 1 s1
          else listening others s1) as ->.
  { rewrite <- Hstart.
    unfold after_addSourceBuffer, sourceBufferEmitter_trigger, bind, get, modify.
    rewrite Hh. simpl. rewrite Hn. destruct others as [|[|others]]; simpl; [|done..].
    by rewrite Hh. }
  destruct others as [|others].
  - simpl. by rewrite Hs, Ht, Hq, Ho.
  - change (S others =? 0) with false. cbv iota.
    by rewrite L1, L2, L3, L4, L5, Hl.
Qed.

(** ** What is never undone *)

#[local] Instance forward_preorder : PreOrder forward.
Proof.
  split; [by intros s|]. intros s1 s2 s3 (?&?&?&?&?) (?&?&?&?&?).
  unfold forward. repeat split; [auto..|lia|congruence|lia].
Qed.

Lemma forward_same_lifecycle s s' : same_lifecycle s s' → forward s s'.
Proof.
  intros (Hs & Hi & Hh & Ho & _ & Hl & _). unfold forward.
  rewrite Hs, Hi, Hh, Ho, Hl. by repeat split.
Qed.

Lemma forward_run_queue s : forward s (run_queue s).
Proof.
  apply forward_same_lifecycle.
  by apply (R_queue same_lifecycle); [..|apply same_lifecycle_sourceBuffers].
Qed.

Lemma forward_start_ : respects forward start_.
Proof.
  intros s. rewrite start__eq.
  destruct (sourceBuffer_ s) as [i|] eqn:Hi;
    [destruct (the_sourceBuffer s)|]; simpl;
    try (unfold forward; simpl; rewrite ?Hi; by repeat split).
  etrans; [|apply forward_run_queue].
  unfold forward, listening. simpl. rewrite length_alter, Hi. by repeat split.
Qed.

Lemma forward_trigger : respects forward sourceBufferEmitter_trigger.
Proof.
  apply respects_bind; [apply _|apply respects_get; apply _|]. intros n.
  by apply respects_times, respects_swallow, forward_start_; apply _.
Qed.

Lemma forward_createSourceBuffer_ mimeType sourceBufferEmitter :
  respects forward (createSourceBuffer_ mimeType sourceBufferEmitter).
Proof.
  intros s. rewrite createSourceBuffer__eq. set (s1 := set_sourceBuffer_ _ _).
  transitivity s1.
  { subst s1. unfold forward. simpl. rewrite length_app. simpl.
    repeat split; [done|by eexists|lia|lia]. }
  revert s1. unfold after_addSourceBuffer.
  destruct sourceBufferEmitter; [|apply forward_start_].
  apply respects_bind; [apply _|apply forward_trigger|]. intros _.
  apply respects_bind; [apply _|apply respects_get; apply _|]. intros n.
  destruct (n <? 2); [|apply forward_start_].
  apply respects_modify. intros s1. unfold forward. simpl. repeat split; auto.
Qed.

Lemma forward_step user e s : forward s (step user e s).
Proof.
  destruct e as [c| |r|mimeType| |i|i failed].
  - apply forward_same_lifecycle, same_lifecycle_call.
  - revert s. unfold step, fire_sourceopen.
    apply respects_bind; [apply _|by apply respects_modify|]. intros _.
    apply respects_bind; [apply _|apply respects_get; apply _|]. intros ls.
    apply respects_for_each; [apply _|]. intros l.
    apply respects_swallow, forward_createSourceBuffer_.
  - done.
  - unfold step, forward. simpl. rewrite length_app. simpl. repeat split; auto; lia.
  - apply forward_trigger.
  - apply forward_same_lifecycle.
    by apply (same_lifecycle_sourceBuffers s SourceBuffer_idle i).
  - apply forward_same_lifecycle, same_lifecycle_fire_updateend.
Qed.

Lemma forward_run user t s : forward s (run user t s).
Proof.
  revert s. induction t as [|e t IH]; intros s; [done|].
  simpl. etrans; [apply (forward_step user e)|apply IH].
Qed.

(** X3. Nothing that happens undoes the set-up of an updater, on any heap:
    once started it stays started ([dispose] does not reset [started_]),
    once it has a buffer it has one (the latest ['sourceopen'] may have
    replaced it), and the updater keeps its ['sourceopen'] listener and its
    handlers on the emitter: it never unsubscribes from either. *)
Theorem set_up_is_never_undone user t s :
  let s' := run user t s in
  (started_ s = true → started_ s' = true)
  ∧ (is_Some (sourceBuffer_ s) → is_Some (sourceBuffer_ s'))
  ∧ sourceopen_listeners s' = sourceopen_listeners s
  ∧ sourcebufferadded_handlers s ≤ sourcebufferadded_handlers s'.
Proof. destruct (forward_run user t s) as (? & ? & _ & ? & ?). by repeat split. Qed.

(** A started updater is disposed of while its media source ends and
    reopens: it is still started and still has its buffer. *)
Lemma set_up_is_never_undone_witness :
  let s := created open 0 "video/mp2t" "main" false in
  let s' := run no_reentrancy
              [Invoke (CallAppendBuffer [Byte.x01] (Some (Fn 1)));
               ReadyStateChange ended; Invoke CallDispose; SourceOpen;
               UpdateEnd 0 true] s in
  started_ s = true ∧ is_Some (sourceBuffer_ s)
  ∧ started_ s' = true ∧ is_Some (sourceBuffer_ s').
Proof.
  intros s s'.
  destruct (set_up_is_never_undone no_reentrancy
              [Invoke (CallAppendBuffer [Byte.x01] (Some (Fn 1)));
               ReadyStateChange ended; Invoke CallDispose; SourceOpen;
               UpdateEnd 0 true] s) as (H1 & H2 & _).
  assert (started_ s = true) as Hs by reflexivity.
  assert (is_Some (sourceBuffer_ s)) as Hb by (by eexists).
  split; [exact Hs|]. split; [exact Hb|]. split; [exact (H1 Hs)|exact (H2 Hb)].
Defined.

(** ** After [dispose] *)

Lemma deaf_step user e s :
  quiet e → deaf s →
  deaf (step user e s) ∧ invocations (trace (step user e s)) = invocations (trace s).
Proof.
  intros He Hs.
  assert (∀ s', same_lifecycle s s' → deaf s') as Hdeaf.
  { intros s' (_ & _ & _ & _ & _ & _ & Hl) j. specialize (Hl j). rewrite Hs in Hl.
    destruct (listeners_of j s') as [|h l]; [done|].
    specialize (Hl h (list_elem_of_here _ _)). by apply not_elem_of_nil in Hl. }
  destruct e as [c| |r|mimeType| |i|i failed]; try done.
  - split; [apply Hdeaf, same_lifecycle_call|apply same_invocations_call].
  - split; [|done]. intros j. specialize (Hs j). unfold step, listeners_of in *. simpl.
    destruct (decide (j < length (sourceBuffers s))) as [Hlt|Hge].
    + by rewrite lookup_app_l.
    + rewrite lookup_app_r by lia. by destruct (j - length (sourceBuffers s)) as [|[|]].
  - split; [|done].
    by apply Hdeaf, (same_lifecycle_sourceBuffers s SourceBuffer_idle i).
  - unfold step, fire_updateend, bind, get. by rewrite (Hs i).
Qed.

Lemma deaf_run user t s :
  Forall quiet t → deaf s →
  invocations (trace (run user t s)) = invocations (trace s).
Proof.
  revert s. induction t as [|e t IH]; intros s Ht Hs; [done|].
  apply Forall_cons in Ht as [He Ht]. destruct (deaf_step user e s He Hs) as [Hd Hi].
  simpl. by rewrite IH, Hi.
Qed.

Lemma disposed_fields i s :
  callbacks_ (disposed i s) = callbacks_ s
  ∧ pendingCallback_ (disposed i s) = pendingCallback_ s
  ∧ invocations (trace (disposed i s)) = invocations (trace s).
Proof.
  unfold disposed. destruct (ReadyState_eqb (readyState s) open); [|done]. simpl.
  rewrite invocations_snoc. simpl. by rewrite app_nil_r.
Qed.

Lemma disposed_deaf i h s :
  onUpdateendCallback_ s = Some h → listeners_of i s = [h] →
  (∀ j, j ≠ i → listeners_of j s = []) → deaf (disposed i s).
Proof.
  intros Hh Hi Hj j.
  assert (∀ f, (∀ b, sb_listeners (f b) = sb_listeners b) →
               ∀ l : list SourceBuffer,
                 match alter f i l !! j with Some b => sb_listeners b | None => [] end
                    = match l !! j with Some b => sb_listeners b | None => [] end) as Hkeep.
  { intros f Hf l. destruct (decide (i = j)) as [->|Hne].
    - rewrite list_lookup_alter_eq. destruct (l !! j); simpl; [apply Hf|done].
    - by rewrite list_lookup_alter_ne. }
  assert (listeners_of j (set_sourceBuffers
            (alter (SourceBuffer_removeEventListener (Some h)) i (sourceBuffers s)) s) = [])
    as Hnone.
  { unfold listeners_of in *. simpl. destruct (decide (i = j)) as [->|Hne].
    - rewrite list_lookup_alter_eq. destruct (sourceBuffers s !! j) as [b|]; [|done].
      simpl in *. rewrite Hi. by rewrite filter_cons_False by (by intros ?).
    - rewrite list_lookup_alter_ne by done. apply Hj. congruence. }
  unfold disposed. rewrite Hh.
  destruct (ReadyState_eqb (readyState s) open); [|done].
  unfold listeners_of in *. simpl in *. by rewrite Hkeep.
Qed.

(** X4. Once [dispose] has taken the handler off the buffer, no completion
    callback is ever run again, whatever is called and whatever ['updateend']
    arrives afterwards (as long as the updater is not started anew by
    ['sourceopen'] or ['sourcebufferadded']).  [dispose] itself leaves the
    queue and the pending callback as they are: what was owed stays owed. *)
Theorem no_callback_after_dispose user s i h t :
  sourceBuffer_ s = Some i → onUpdateendCallback_ s = Some h →
  listeners_of i s = [h] → (∀ j, j ≠ i → listeners_of j s = []) →
  Forall quiet t →
  ∃ s', dispose s = Normal tt s'
        ∧ callbacks_ s' = callbacks_ s
        ∧ pendingCallback_ s' = pendingCallback_ s
        ∧ invocations (trace (run user t s')) = invocations (trace s).
Proof.
  intros Hi Hh Hl Hj Ht. exists (disposed i s).
  destruct (disposed_fields i s) as (Hq & Hp & Hinv).
  split; [|split; [done|split; [done|]]].
  - rewrite dispose_eq. unfold the_sourceBuffer. rewrite Hi.
    unfold listeners_of in Hl. by destruct (sourceBuffers s !! i).
  - rewrite deaf_run; [done..|]. by apply (disposed_deaf i h).
Qed.

(** Two appends, the first in flight; after [dispose] another append and two
    completions: the callbacks run are still none. *)
Lemma no_callback_after_dispose_witness :
  let s := run no_reentrancy
             [Invoke (CallAppendBuffer [Byte.x01] (Some (Fn 1)));
              Invoke (CallAppendBuffer [Byte.x02] (Some (Fn 2)))]
             (created open 0 "video/mp2t" "main" false) in
  let t := [Idle 0; UpdateEnd 0 false;
            Invoke (CallAppendBuffer [Byte.x03] (Some (Fn 3)));
            Idle 0; UpdateEnd 0 true] in
  ∃ s', dispose s = Normal tt s'
        ∧ callbacks_ s' = [(sourceBuffer_appendBuffer [Byte.x02], Some (Fn 2))]
        ∧ pendingCallback_ s' = Some (Fn 1)
        ∧ invocations (trace (run no_reentrancy t s')) = [].
Proof.
  intros s t.
  apply (no_callback_after_dispose no_reentrancy s 0 0 t); try reflexivity.
  - intros [|j] Hj; [done|reflexivity].
  - by repeat constructor.
Defined.

(** ** [updating()] after a call *)

Lemma queued_on_empty_queue callback done s :
  started_ s = true → callbacks_ s = [] →
  (callback = sourceBuffer_abort → is_Some done) →
  (∀ offset, callback ≠ sourceBuffer_set_timestampOffset offset) →
  updating (run_queue (push callback done s)) = true.
Proof.
  intros Hst Hq Habort Hoffset. unfold run_queue.
  destruct (can_dispatch (push callback done s)) eqn:Hc.
  - apply can_dispatch_true in Hc as (i & b & x & rest & Hi & Hb & _ & _ & Hx & _).
    simpl in Hi, Hb, Hx. rewrite Hq in Hx. injection Hx as <- <-.
    unfold dispatch. simpl. rewrite Hq, Hi. simpl.
    unfold updating, the_sourceBuffer. simpl. rewrite Hi, list_lookup_alter_eq, Hb. simpl.
    destruct callback; simpl; try done.
    + by destruct Habort as [d ->].
    + by destruct (Hoffset offset).
  - unfold can_dispatch in Hc. simpl in Hc. rewrite Hq, Hst in Hc. simpl in Hc.
    change (0 <? 1) with true in Hc. rewrite !andb_true_r in Hc.
    by apply negb_false_iff in Hc.
Qed.

(** X5. On a started updater with an empty queue, [updating()] is true
    after [appendBuffer] and after [remove] (once an append was made): the
    operation is on the buffer, or it waits behind the completion that is
    still due.  The same holds for [abort] with a callback. *)
Theorem updating_after_a_call_on_an_empty_queue s :
  started_ s = true → callbacks_ s = [] →
  (∀ bytes done, updating (state_of (appendBuffer bytes done s)) = true)
  ∧ (processedAppend_ s = true →
     (∀ start end_ done, updating (state_of (remove start end_ done s)) = true)
     ∧ (∀ done, updating (state_of (abort (Some done) s)) = true)).
Proof.
  intros Hst Hq. split; [|intros Hp; split].
  - intros bytes done. rewrite appendBuffer_eq. simpl. by apply queued_on_empty_queue.
  - intros start end_ done. rewrite remove_eq, Hp. simpl. by apply queued_on_empty_queue.
  - intros done. rewrite abort_eq, Hp. simpl. by apply queued_on_empty_queue.
Qed.

(** A freshly started updater: [updating()] is false before the first
    append and true after it. *)
Lemma updating_after_a_call_on_an_empty_queue_witness :
  let s := created open 0 "video/mp2t" "main" false in
  updating s = false
  ∧ updating (state_of (appendBuffer [Byte.x01] None s)) = true.
Proof.
  intros s.
  assert (started_ s = true) as Hst by (vm_compute; reflexivity).
  assert (callbacks_ s = []) as Hq by (vm_compute; reflexivity).
  split; [vm_compute; reflexivity|].
  exact (proj1 (updating_after_a_call_on_an_empty_queue s Hst Hq) [Byte.x01] None).
Defined.

(** ** Offset changes in the queue *)

#[local] Instance same_requests_preorder : PreOrder same_requests.
Proof. split; [done|]. intros s1 s2 s3 [??] [??]. split; congruence. Qed.

Lemma same_requests_fields s s' :
  trace s' = trace s → timestampOffset_ s' = timestampOffset_ s →
  processedAppend_ s' = processedAppend_ s → same_requests s s'.
Proof. intros Ht _ _. unfold same_requests. by rewrite Ht. Qed.

Lemma same_requests_dispatched s callback done :
  same_requests s (set_trace (trace s ++ [Dispatched callback done]) s).
Proof.
  split; simpl; [rewrite enqueued_snoc|rewrite calls_snoc]; simpl; by rewrite app_nil_r.
Qed.

Lemma same_requests_acknowledged s : same_requests s (acknowledged s).
Proof.
  split; [apply enqueued_acknowledged|].
  unfold acknowledged. destruct (pendingCallback_ s); simpl; rewrite !calls_snoc; simpl;
    by rewrite ?app_nil_r.
Qed.

Lemma mirrored_requests s s' : same_requests s s' → mirrored s → mirrored s'.
Proof. intros [He Hc] Hm. unfold mirrored, offsets in *. by rewrite He, Hc. Qed.

Lemma set_offsets_snoc q callback done :
  set_offsets (q ++ [(callback, done)])
  = set_offsets q ++ option_list (as_set_offset (callback, done)).
Proof. unfold set_offsets. rewrite omap_app. simpl. by destruct (as_set_offset _). Qed.

(** A public call queues an offset change exactly when it is
    [timestampOffset] with a value. *)
Lemma call_requests c s :
  set_offsets (enqueued (trace (state_of (call c s))))
  = set_offsets (enqueued (trace s)) ++ option_list (as_offset c).
Proof.
  rewrite call_eq. set (s0 := set_trace _ s).
  assert (enqueued (trace s0) = enqueued (trace s)) as H0.
  { subst s0. simpl. rewrite enqueued_snoc. simpl. by rewrite app_nil_r. }
  assert (processedAppend_ s0 = processedAppend_ s) as Hp by done.
  clearbody s0.
  destruct c as [done|bytes done|start end_ done|offset|].
  - rewrite abort_eq. simpl. destruct (processedAppend_ s0).
    + rewrite enqueued_queued, set_offsets_snoc, H0. done.
    + simpl. by rewrite H0, app_nil_r.
  - rewrite appendBuffer_eq. simpl. rewrite enqueued_queued, set_offsets_snoc. simpl.
    by rewrite H0.
  - rewrite remove_eq. simpl. destruct (processedAppend_ s0).
    + rewrite enqueued_queued, set_offsets_snoc, H0. done.
    + simpl. by rewrite H0, app_nil_r.
  - unfold bind. rewrite timestampOffset_eq. destruct offset as [offset|]; simpl.
    + rewrite enqueued_queued, set_offsets_snoc. simpl. by rewrite H0.
    + by rewrite H0, app_nil_r.
  - rewrite dispose_eq. simpl. rewrite app_nil_r.
    destruct (sourceBuffer_ s0) as [i|]; [|simpl; by rewrite H0].
    destruct (the_sourceBuffer s0); [|simpl; by rewrite H0]. simpl. unfold disposed.
    destruct (ReadyState_eqb _ open); simpl; rewrite ?enqueued_snoc; simpl;
      by rewrite ?app_nil_r, H0.
Qed.

Lemma mirrored_call c : preserves mirrored (call c).
Proof.
  intros s Hs. unfold mirrored in *. rewrite call_requests, Hs.
  destruct (call_effect c s) as (Hc & _). unfold offsets. rewrite Hc, omap_app. simpl.
  by destruct (as_offset c).
Qed.

Lemma mirrored_updateend_handler user : preserves mirrored (updateend_handler user).
Proof.
  intros s Hs. rewrite updateend_handler_eq.
  apply preserves_bind;
    [apply preserves_for_each, mirrored_call
    |intros _ s' Hs'; revert Hs'; apply mirrored_requests,
       (respects_runCallback_ same_requests same_requests_fields same_requests_dispatched)|].
  revert Hs. apply mirrored_requests, same_requests_acknowledged.
Qed.

Lemma mirrored_step user e s : mirrored s → mirrored (step user e s).
Proof.
  intros Hs. destruct e as [c| |r|mimeType| |i|i failed];
    try (revert Hs; by apply mirrored_requests,
           (R_step_internal same_requests same_requests_fields same_requests_dispatched)).
  - by apply mirrored_call.
  - unfold step, fire_updateend. revert s Hs.
    apply (preserves_bind mirrored); [apply preserves_get|]. intros hs.
    apply preserves_for_each. intros h.
    apply preserves_bind; [apply preserves_get|]. intros [|]; [|apply preserves_ret].
    apply preserves_swallow, mirrored_updateend_handler.
Qed.

Lemma mirrored_reached user readyState0 others mimeType type sourceBufferEmitter t :
  mirrored (run user t (created readyState0 others mimeType type sourceBufferEmitter)).
Proof.
  assert (mirrored (created readyState0 others mimeType type sourceBufferEmitter)) as H0.
  { assert (mirrored (mkState [] None 0%float false type mimeType false None None
                        readyState0 (replicate others (SourceBuffer_new "")) [] 0 0 []))
      as H0 by done.
    revert H0. apply mirrored_requests,
      (respects_constructor same_requests same_requests_fields same_requests_dispatched). }
  revert H0. generalize (created readyState0 others mimeType type sourceBufferEmitter).
  induction t as [|e t IH]; intros s Hs; [done|]. simpl. by apply IH, mirrored_step.
Qed.

(** X6. The offset changes that went to the buffer, followed by those still
    queued, carry exactly the values [timestampOffset] was called with, in
    the order of the calls: each call with a value queues one change, and
    nothing else queues or drops one.  So once no offset change is queued,
    the last one that went to the buffer carries the value the updater has
    cached. *)
Theorem offset_changes_follow_the_calls
    user readyState0 others mimeType type sourceBufferEmitter t :
  let s := run user t (created readyState0 others mimeType type sourceBufferEmitter) in
  set_offsets (dispatched (trace s)) ++ set_offsets (callbacks_ s) = offsets (trace s)
  ∧ (set_offsets (callbacks_ s) = [] →
     timestampOffset_ s = default 0%float (last (set_offsets (dispatched (trace s))))).
Proof.
  intros s.
  pose proof (mirrored_reached user readyState0 others mimeType type sourceBufferEmitter t)
    as Hm.
  pose proof (Inv_reached user readyState0 others mimeType type sourceBufferEmitter t)
    as [Hfifo _ _ _ _ _ _ _].
  pose proof (Inv_calls_reached user readyState0 others mimeType type sourceBufferEmitter t)
    as [Hoffset _].
  fold s in Hm, Hfifo, Hoffset. unfold mirrored in Hm.
  rewrite Hfifo in Hm. unfold set_offsets in *. rewrite omap_app in Hm.
  split; [done|]. intros Hq. rewrite Hq, app_nil_r in Hm.
  by rewrite Hoffset, Hm.
Qed.

(** An offset, an append with a callback, another offset: the first change
    has gone to the buffer, the second waits behind the append; after the
    completion both have gone and the last carries the cached value. *)
Lemma offset_changes_follow_the_calls_witness :
  let t := [Invoke (CallTimestampOffset (Some 5%float));
            Invoke (CallAppendBuffer [Byte.x01] (Some (Fn 1)));
            Invoke (CallTimestampOffset (Some 7%float));
            Idle 0; UpdateEnd 0 false] in
  let s := run no_reentrancy t (created open 0 "video/mp2t" "main" false) in
  set_offsets (callbacks_ s) = []
  ∧ set_offsets (dispatched (trace s)) = [5%float; 7%float]
  ∧ timestampOffset_ s = default 0%float (last (set_offsets (dispatched (trace s)))).
Proof.
  intros t s.
  assert (set_offsets (callbacks_ s) = []) as Hq by (vm_compute; reflexivity).
  split; [exact Hq|]. split; [vm_compute; reflexivity|].
  exact (proj2 (offset_changes_follow_the_calls
                  no_reentrancy open 0 "video/mp2t" "main" false t) Hq).
Defined.

(** ** An offset change at the head of the queue *)

(** X7. When the operation at the head of the queue is an offset change,
    the ['updateend'] that completes the operation before it dispatches the
    change and nothing more: the operation behind it stays queued although
    the updater is started, the buffer is idle and no callback is pending.
    Setting the offset fires no ['updateend'], so that operation waits for
    the next public call that queues something. *)
Theorem offset_change_holds_up_the_queue
    user s i h b done offset x rest failed :
  listeners_of i s = [h] → sourceBuffer_ s = Some i →
  sourceBuffers s !! i = Some b → sb_updating b = false →
  started_ s = true → pendingCallback_ s = Some done →
  callback_body user done (acknowledged s) = [] →
  callbacks_ s = (sourceBuffer_set_timestampOffset offset, None) :: x :: rest →
  let s' := step user (UpdateEnd i failed) s in
  callbacks_ s' = x :: rest
  ∧ dispatched (trace s') = dispatched (trace s) ++ [(sourceBuffer_set_timestampOffset offset, None)]
  ∧ started_ s' = true ∧ pendingCallback_ s' = None ∧ updating s' = false.
Proof.
  intros Hl Hi Hb Hu Hst Hp Hbody Hq s'.
  assert (s' = run_queue (acknowledged s)) as ->.
  { subst s'. change (step user (UpdateEnd i failed) s) with (step user (UpdateEnd i true) s).
    rewrite (fire_updateend_one_listener user i h s Hl), updateend_handler_eq.
    unfold reentrant_calls. rewrite Hp, Hbody. simpl. unfold bind, ret.
    by rewrite runCallback__eq. }
  destruct (acknowledged_fields s) as (A1 & A2 & A3 & A4 & A5).
  assert (can_dispatch (acknowledged s) = true) as Hc.
  { unfold can_dispatch, updating, the_sourceBuffer.
    by rewrite A1, A2, A3, A4, A5, Hi, Hb, Hu, Hq, Hst. }
  unfold run_queue. rewrite Hc. unfold dispatch. rewrite A4, Hq, A2, Hi. simpl.
  rewrite dispatched_snoc, dispatched_acknowledged, A1. simpl.
  repeat split; try done.
  unfold updating, the_sourceBuffer. simpl.
  by rewrite A2, Hi, list_lookup_alter_eq, A3, Hb; simpl; rewrite Hu.
Qed.

(** An append, an offset change and a second append are called in a row;
    the ['updateend'] of the first append sets the offset and leaves the
    second append in the queue of an idle updater. *)
Lemma offset_change_holds_up_the_queue_witness :
  let s := run no_reentrancy
             [Invoke (CallAppendBuffer [Byte.x01] (Some (Fn 1)));
              Invoke (CallTimestampOffset (Some 5%float));
              Invoke (CallAppendBuffer [Byte.x02] (Some (Fn 2)));
              Idle 0]
             (created open 0 "video/mp2t" "main" false) in
  let s' := step no_reentrancy (UpdateEnd 0 false) s in
  callbacks_ s' = [(sourceBuffer_appendBuffer [Byte.x02], Some (Fn 2))]
  ∧ dispatched (trace s')
    = dispatched (trace s) ++ [(sourceBuffer_set_timestampOffset 5%float, None)]
  ∧ started_ s' = true ∧ pendingCallback_ s' = None ∧ updating s' = false.
Proof.
  intros s.
  apply (offset_change_holds_up_the_queue no_reentrancy s 0 0
           (mkSourceBuffer "video/mp2t" false 0%float [0]) (Fn 1) 5%float
           (sourceBuffer_appendBuffer [Byte.x02], Some (Fn 2)) [] false);
    vm_compute; reflexivity.
Defined.

(** ** [buffered()] *)

(** X8. [buffered()] never throws.  As long as the media source has not
    opened it answers with no ranges, whatever was called; and on every heap
    an execution gets to, once the updater has its buffer it answers with
    what that buffer reports: the reference never dangles. *)
Theorem buffered_is_empty_until_the_buffer_is_there :
  (∀ user ranges others mimeType type sourceBufferEmitter t,
     SourceOpen ∉ t →
     buffered ranges
       (run user t (created closed others mimeType type sourceBufferEmitter)) = [])
  ∧ (∀ user ranges s i,
       reachable user s → sourceBuffer_ s = Some i → buffered ranges s = ranges i).
Proof.
  split.
  - intros user ranges others mimeType type sourceBufferEmitter t Ht.
    assert (dormant [(mimeType, sourceBufferEmitter)]
              (run user t (created closed others mimeType type sourceBufferEmitter)))
      as (Hi & _).
    { apply dormant_run; [done|]. repeat split; try done.
      intros i. by apply (no_listeners_yet others). }
    unfold buffered. by rewrite Hi.
  - intros user ranges s i Hs Hi. apply reachable_Inv in Hs as [_ _ _ _ _ _ Href _].
    pose proof (Href i Hi) as Hlt. apply lookup_lt_is_Some in Hlt as [b Hb].
    unfold buffered, the_sourceBuffer. by rewrite Hi, Hb.
Qed.

(** Before ['sourceopen'] an append changes nothing about [buffered()];
    after it the ranges are those of the new buffer. *)
Lemma buffered_is_empty_until_the_buffer_is_there_witness :
  let ranges := λ i : nat, [(0%float, 10%float)] in
  let t := [Invoke (CallAppendBuffer [Byte.x01] (Some (Fn 1)))] in
  let s := created closed 0 "video/mp2t" "main" false in
  (SourceOpen ∉ t)
  ∧ buffered ranges (run no_reentrancy t s) = []
  ∧ buffered ranges (run no_reentrancy (t ++ [SourceOpen]) s) = [(0%float, 10%float)].
Proof.
  intros ranges t s.
  destruct buffered_is_empty_until_the_buffer_is_there as [Hbefore Hafter].
  assert (SourceOpen ∉ t) as Ht.
  { intros H. repeat (apply elem_of_cons in H as [H|H]; [discriminate H|]).
    by apply not_elem_of_nil in H. }
  split; [exact Ht|]. split.
  - exact (Hbefore no_reentrancy ranges 0 "video/mp2t" "main" false t Ht).
  - apply (Hafter no_reentrancy ranges _ 0).
    + by exists closed, 0, "video/mp2t", "main", false, (t ++ [SourceOpen]).
    + vm_compute; reflexivity.
Defined.

(** ** ['sourceopen'], again *)

Lemma sourceopen_listeners_created readyState0 others mimeType type sourceBufferEmitter :
  sourceopen_listeners (created readyState0 others mimeType type sourceBufferEmitter)
  = if ReadyState_eqb readyState0 closed then [(mimeType, sourceBufferEmitter)] else [].
Proof.
  unfold created, constructor. set (this := mkState _ _ _ _ _ _ _ _ _ _ _ _ _ _ _).
  destruct (ReadyState_eqb readyState0 closed); [done|].
  by destruct (createSourceBuffer__resources mimeType sourceBufferEmitter this)
    as (_ & _ & ->).
Qed.

(** X9. The listener of ['sourceopen'] is never taken off, so every
    ['sourceopen'] of a media source that was closed at construction, the
    first and each later one, adds a buffer to the media source and points
    the updater at it; the buffer it had before stays in the media source.
    An updater constructed on a media source that was not closed has no such
    listener: ['sourceopen'] changes nothing but the ready state. *)
Theorem every_sourceopen_adds_a_buffer
    user readyState0 others mimeType type sourceBufferEmitter t :
  let s := run user t (created readyState0 others mimeType type sourceBufferEmitter) in
  let s' := step user SourceOpen s in
  if ReadyState_eqb readyState0 closed then
    sourceBuffer_ s' = Some (length (sourceBuffers s))
    ∧ length (sourceBuffers s') = S (length (sourceBuffers s))
  else s' = set_readyState open s.
Proof.
  intros s s'.
  destruct (forward_run user t
              (created readyState0 others mimeType type sourceBufferEmitter))
    as (_ & _ & _ & Hl & _).
  fold s in Hl. rewrite sourceopen_listeners_created in Hl.
  subst s'. unfold step, fire_sourceopen, bind, modify, get. simpl.
  destruct (ReadyState_eqb readyState0 closed); rewrite Hl; simpl; [|done].
  unfold bind, swallow, ret. simpl.
  by destruct (createSourceBuffer__resources mimeType sourceBufferEmitter
                 (set_readyState open s)) as (-> & -> & _).
Qed.

(** ** Before the buffer *)

(** X10. On a media source that was closed at construction, until
    ['sourceopen'] fires [updating()] answers true, the updater is not
    started, and every operation the public calls queue stays in the queue:
    nothing is dispatched and nothing is dropped. *)
Theorem updating_until_the_buffer_is_there
    user others mimeType type sourceBufferEmitter t :
  SourceOpen ∉ t →
  let s := run user t (created closed others mimeType type sourceBufferEmitter) in
  updating s = true ∧ started_ s = false
  ∧ dispatched (trace s) = [] ∧ callbacks_ s = enqueued (trace s).
Proof.
  intros Ht s.
  assert (dormant [(mimeType, sourceBufferEmitter)] s) as (Hi & _).
  { apply dormant_run; [done|]. repeat split; try done.
    intros i. by apply (no_listeners_yet others). }
  pose proof (Inv_reached user closed others mimeType type sourceBufferEmitter t)
    as [Hfifo _ _ Hstarted Hbuffer _ _ _].
  fold s in Hfifo, Hstarted, Hbuffer.
  assert (started_ s = false) as Hst.
  { destruct (started_ s); [|done]. destruct Hbuffer as [i Hsome]; [done|]. congruence. }
  specialize (Hstarted Hst). rewrite Hstarted in Hfifo.
  unfold updating, the_sourceBuffer. by rewrite Hi.
Qed.

(** An offset change, an append and a completion on some other buffer,
    all before ['sourceopen']. *)
Lemma updating_until_the_buffer_is_there_witness :
  let t := [Invoke (CallTimestampOffset (Some 5%float));
            Invoke (CallAppendBuffer [Byte.x01] (Some (Fn 1)));
            UpdateEnd 0 false] in
  let s := run no_reentrancy t (created closed 1 "video/mp2t" "main" false) in
  (SourceOpen ∉ t)
  ∧ updating s = true ∧ started_ s = false
  ∧ dispatched (trace s) = [] ∧ callbacks_ s = enqueued (trace s).
Proof.
  intros t s.
  assert (SourceOpen ∉ t) as Ht.
  { intros H. repeat (apply elem_of_cons in H as [H|H]; [discriminate H|]).
    by apply not_elem_of_nil in H. }
  split; [exact Ht|].
  exact (updating_until_the_buffer_is_there
           no_reentrancy 1 "video/mp2t" "main" false t Ht).
Defined.

(** * Exclusivity, event by event *)

(** ** What an event adds to the trace *)

#[local] Instance unnotified_preorder : PreOrder unnotified.
Proof.
  split.
  - intros s. exists []. by rewrite app_nil_r.
  - intros s1 s2 s3 (k1 & H1 & F1) (k2 & H2 & F2). exists (k1 ++ k2).
    split; [by rewrite H2, H1, app_assoc|by apply Forall_app].
Qed.

Lemma unnotified_fields s s' : trace s' = trace s → unnotified s s'.
Proof. intros H. exists []. by rewrite app_nil_r. Qed.

Lemma unnotified_observe s o :
  o ≠ Updateend → unnotified s (set_trace (trace s ++ [o]) s).
Proof. intros Ho. exists [o]. split; [done|by repeat constructor]. Qed.

Lemma unnotified_call c s : unnotified s (state_of (call c s)).
Proof.
  apply (respects_call unnotified);
    [intros; by apply unnotified_observe|intros; by apply unnotified_fields..].
Qed.

Lemma unnotified_acknowledged user s :
  ∃ seg, trace (state_of (updateend_handler user s)) = trace s ++ [Updateend] ++ seg
         ∧ Forall (λ o, o ≠ Updateend) seg.
Proof.
  destruct (R_after_acknowledged unnotified) with (user := user) (s := s)
    as (seg & Hseg & Hall);
    [intros; by apply unnotified_observe|intros; by apply unnotified_fields..|].
  rewrite Hseg. unfold acknowledged. destruct (pendingCallback_ s) as [done|]; simpl.
  - exists (Invoked done [] :: seg). rewrite <- !app_assoc. simpl.
    split; [done|by constructor].
  - exists seg. by rewrite <- !app_assoc.
Qed.

(** An event other than an ['updateend'] that is heard adds no [Updateend]
    to the trace; one that is heard once adds one, before anything else. *)
Lemma unnotified_internal user e s : internal e → unnotified s (step user e s).
Proof.
  intros He. apply (R_step_internal unnotified);
    [intros; by apply unnotified_fields|intros; by apply unnotified_observe|done].
Qed.

Lemma step_segment user e s :
  one_listener e s = true →
  ∃ seg, trace (step user e s)
         = trace s ++ (if heard e s then [Updateend] else []) ++ seg
         ∧ Forall (λ o, o ≠ Updateend) seg.
Proof.
  intros He. destruct e as [c| |r|mimeType| |i|i failed].
  - change (unnotified s (step user (Invoke c) s)). apply unnotified_call.
  - change (unnotified s (step user SourceOpen s)). by apply unnotified_internal.
  - change (unnotified s (step user (ReadyStateChange r) s)).
    by apply unnotified_internal.
  - change (unnotified s (step user (ForeignSourceBuffer mimeType) s)).
    by apply unnotified_internal.
  - change (unnotified s (step user SourceBufferAdded s)). by apply unnotified_internal.
  - change (unnotified s (step user (Idle i) s)). by apply unnotified_internal.
  - simpl in He. unfold heard.
    destruct (listeners_of i s) as [|h [|h' l]] eqn:Hl.
    + exists []. unfold step, fire_updateend, bind, get. rewrite Hl. simpl.
      by rewrite app_nil_r.
    + rewrite bool_decide_eq_false_2 by done. simpl.
      change (step user (UpdateEnd i failed) s) with (step user (UpdateEnd i true) s).
      rewrite (fire_updateend_one_listener user i h s Hl).
      apply unnotified_acknowledged.
    + rewrite bool_decide_eq_false_2 in He by done. simpl in He.
      by rewrite andb_false_r in He.
Qed.

Lemma scan_unnotified blocks b seg :
  Forall (λ o, o ≠ Updateend) seg →
  scan blocks b seg = scan blocks b (as_obs <$> dispatched seg).
Proof.
  revert b. induction seg as [|o seg IH]; intros b Hseg; [done|].
  apply Forall_cons in Hseg as [Ho Hseg].
  destruct o; simpl; try (by apply IH); [|done].
  destruct b; [done|by apply IH].
Qed.

Lemma dispatched_as_obs q : dispatched (as_obs <$> q) = q.
Proof.
  induction q as [|[callback d] q IH]; [done|].
  simpl. f_equal. exact IH.
Qed.

Lemma dispatched_app t1 t2 : dispatched (t1 ++ t2) = dispatched t1 ++ dispatched t2.
Proof. apply omap_app. Qed.

Lemma dispatched_during_eq user e s :
  dispatched (trace (step user e s)) = dispatched (trace s) ++ dispatched_during user e s.
Proof.
  unfold dispatched_during. destruct (grows_step user e s) as [k ->].
  by rewrite dispatched_app, drop_app_length.
Qed.

(** The history of a run holds every operation the run dispatched. *)
Lemma history_dispatched user t s :
  dispatched (trace (run user t s))
  = dispatched (trace s) ++ dispatched (event_history user t s).
Proof.
  revert s. induction t as [|e t IH]; intros s; [simpl; by rewrite app_nil_r|].
  simpl. rewrite IH, dispatched_during_eq, !dispatched_app, dispatched_as_obs.
  rewrite <- app_assoc. by destruct (heard e s).
Qed.

(** Scanning the history from a heap of [Inv] goes as scanning the trace
    does, as long as every ['updateend'] is heard once. *)
Lemma history_scan user t s :
  Inv s → singly user t s = true →
  scan with_callback (truthy (pendingCallback_ s)) (event_history user t s)
  = Some (truthy (pendingCallback_ (run user t s))).
Proof.
  revert s. induction t as [|e t IH]; intros s Hinv Hs; [done|].
  simpl in Hs. apply andb_prop in Hs as [He Ht].
  destruct (step_segment user e s He) as (seg & Htr & Hseg).
  pose proof (Inv_step user e s Hinv) as Hinv'.
  pose proof (inv_excl s Hinv) as H0. pose proof (inv_excl _ Hinv') as H1.
  rewrite Htr, scan_app, H0 in H1. simpl in H1. rewrite scan_app in H1.
  assert (dispatched_during user e s = dispatched seg) as Hd.
  { unfold dispatched_during. rewrite Htr, !dispatched_app, drop_app_length.
    by destruct (heard e s). }
  simpl. rewrite scan_app.
  destruct (scan with_callback (truthy (pendingCallback_ s))
              (if heard e s then [Updateend] else [])) as [b1|]; [|done].
  simpl in *. rewrite scan_app, Hd, <- scan_unnotified, H1 by done. simpl.
  by apply IH.
Qed.

(** ** Listeners *)

Lemma listeners_lookup_alter f i j (l : list SourceBuffer) :
  (∀ b, length (sb_listeners (f b)) ≤ length (sb_listeners b)) →
  length (match alter f i l !! j with Some b => sb_listeners b | None => [] end)
  ≤ length (match l !! j with Some b => sb_listeners b | None => [] end).
Proof.
  intros Hf. destruct (decide (i = j)) as [->|Hne].
  - rewrite list_lookup_alter_eq. destruct (l !! j); simpl; [apply Hf|done].
  - by rewrite list_lookup_alter_ne.
Qed.

#[local] Instance no_new_listeners_preorder : PreOrder no_new_listeners.
Proof.
  split; [by intros s j|]. intros s1 s2 s3 H12 H23 j. etrans; [apply H23|apply H12].
Qed.

Lemma no_new_listeners_run_queue s : no_new_listeners s (run_queue s).
Proof.
  unfold run_queue, dispatch. destruct (can_dispatch s); [|done].
  destruct (callbacks_ s) as [|callbacks rest]; [done|].
  destruct (sourceBuffer_ s) as [i|]; [|done].
  intros j. unfold listeners_of. simpl. apply listeners_lookup_alter.
  intros b. by destruct callbacks.1.
Qed.

Lemma no_new_listeners_queued callback done s :
  no_new_listeners s (run_queue (push callback done s)).
Proof. etrans; [|apply no_new_listeners_run_queue]. by intros j. Qed.

Lemma no_new_listeners_disposed i s : no_new_listeners s (disposed i s).
Proof.
  assert (∀ b, length (sb_listeners
                         (SourceBuffer_removeEventListener (onUpdateendCallback_ s) b))
               ≤ length (sb_listeners b)) as Hr.
  { intros b. simpl. destruct (onUpdateendCallback_ s); [apply length_filter|done]. }
  intros j. unfold disposed, listeners_of.
  destruct (ReadyState_eqb (readyState s) open); simpl.
  - etrans; [apply listeners_lookup_alter; by intros b|]. by apply listeners_lookup_alter.
  - by apply listeners_lookup_alter.
Qed.

Lemma no_new_listeners_call c s : no_new_listeners s (state_of (call c s)).
Proof.
  rewrite call_eq. set (s0 := set_trace _ s).
  assert (no_new_listeners s s0) as H0 by (by intros j).
  etrans; [exact H0|]. clearbody s0. clear H0.
  destruct c as [done|bytes done|start end_ done|offset|].
  - rewrite abort_eq. simpl. destruct (processedAppend_ s0); [|reflexivity].
    apply no_new_listeners_queued.
  - rewrite appendBuffer_eq. simpl.
    etrans; [|apply no_new_listeners_queued]. by intros j.
  - rewrite remove_eq. simpl. destruct (processedAppend_ s0); [|reflexivity].
    apply no_new_listeners_queued.
  - unfold bind. rewrite timestampOffset_eq. destruct offset as [offset|]; simpl; [|reflexivity].
    transitivity (run_queue (push (sourceBuffer_set_timestampOffset offset) None s0));
      [apply no_new_listeners_queued|intros j; reflexivity].
  - rewrite dispose_eq. destruct (sourceBuffer_ s0) as [i|]; [|reflexivity].
    destruct (the_sourceBuffer s0); [|reflexivity]. apply no_new_listeners_disposed.
Qed.

Lemma no_new_listeners_fire_updateend user i s :
  no_new_listeners s (state_of (fire_updateend user i s)).
Proof.
  revert s. unfold fire_updateend.
  apply respects_bind; [apply _|apply respects_get; apply _|]. intros hs.
  apply respects_for_each; [apply _|]. intros h.
  apply respects_bind; [apply _|apply respects_get; apply _|].
  intros [|]; [|apply respects_ret; apply _].
  apply respects_swallow. intros s. rewrite updateend_handler_eq.
  transitivity (acknowledged s).
  { intros j. unfold acknowledged. by destruct (pendingCallback_ s). }
  generalize (acknowledged s).
  apply respects_bind; [apply _| |].
  - apply respects_for_each; [apply _|]. intros c s'. apply no_new_listeners_call.
  - intros _ s'. rewrite runCallback__eq. apply no_new_listeners_run_queue.
Qed.

(** The events that start nothing add no listener and leave the updater's
    reference to its buffer alone. *)
Lemma quiet_step_listeners user e s :
  quiet e →
  sourceBuffer_ (step user e s) = sourceBuffer_ s ∧ no_new_listeners s (step user e s).
Proof.
  intros He. destruct e as [c| |r|mimeType| |i|i failed]; try done.
  - split; [by destruct (same_lifecycle_call c s) as (_ & ? & _)
           |apply no_new_listeners_call].
  - split; [done|]. intros j. reflexivity.
  - split; [done|]. intros j. unfold step, listeners_of. simpl.
    destruct (decide (j < length (sourceBuffers s))) as [Hlt|Hge].
    + by rewrite lookup_app_l.
    + rewrite lookup_app_r by lia.
      destruct (j - length (sourceBuffers s)) as [|[|]]; simpl; lia.
  - split; [done|]. intros j. unfold step, listeners_of. simpl.
    by apply listeners_lookup_alter.
  - split; [by destruct (same_lifecycle_fire_updateend user i s) as (_ & ? & _)
           |apply no_new_listeners_fire_updateend].
Qed.

Lemma own_listener_fewer s s' :
  sourceBuffer_ s' = sourceBuffer_ s → no_new_listeners s s' →
  own_listener s → own_listener s'.
Proof.
  intros Hi Hl Hs j. specialize (Hl j). destruct (Hs j) as [Hn|[Hj Hlen]].
  - left. rewrite Hn in Hl. destruct (listeners_of j s'); [done|simpl in Hl; lia].
  - right. split; [congruence|lia].
Qed.

Lemma own_listener_step user e s :
  quiet e → own_listener s → own_listener (step user e s).
Proof.
  intros He. destruct (quiet_step_listeners user e s He) as [Hi Hl].
  by apply own_listener_fewer.
Qed.

Lemma own_listener_one e s : own_listener s → one_listener e s = true.
Proof.
  intros Hs. destruct e as [c| |r|mimeType| |i|i failed]; try done. simpl.
  destruct (Hs i) as [Hn|[Hj Hlen]].
  - by rewrite bool_decide_eq_true_2.
  - rewrite (bool_decide_eq_true_2 (sourceBuffer_ s = Some i)) by done.
    apply orb_true_iff. right. simpl. by apply Nat.leb_le.
Qed.

Lemma singly_quiet user t s :
  Forall quiet t → own_listener s →
  singly user t s = true ∧ own_listener (run user t s).
Proof.
  revert s. induction t as [|e t IH]; intros s Ht Hs; [done|].
  apply Forall_cons in Ht as [He Ht]. simpl.
  rewrite (own_listener_one e s Hs). simpl. apply IH; [done|].
  by apply own_listener_step.
Qed.

Lemma singly_app user t1 t2 s :
  singly user (t1 ++ t2) s = singly user t1 s && singly user t2 (run user t1 s).
Proof.
  revert s. induction t1 as [|e t1 IH]; intros s; [done|].
  simpl. by rewrite IH, andb_assoc.
Qed.

Lemma deaf_own_listener s : deaf s → own_listener s.
Proof. intros Hs j. by left. Qed.

Lemma start__own_listener i s :
  deaf s → sourceBuffer_ s = Some i → own_listener (state_of (start_ s)).
Proof.
  intros Hs Hi. rewrite start__eq, Hi.
  destruct (the_sourceBuffer s) as [b|] eqn:Hb; simpl.
  - apply (own_listener_fewer (listening i s));
      [apply sourceBuffer__run_queue|apply no_new_listeners_run_queue|].
    unfold the_sourceBuffer in Hb. rewrite Hi in Hb.
    intros j. destruct (decide (j = i)) as [->|Hne].
    + right. split; [done|]. unfold listeners_of, listening. simpl.
      rewrite list_lookup_alter_eq, Hb. simpl.
      pose proof (Hs i) as Hn. unfold listeners_of in Hn. rewrite Hb in Hn.
      by rewrite Hn.
    + left. unfold listeners_of, listening. simpl.
      rewrite list_lookup_alter_ne by done. apply Hs.
  - apply deaf_own_listener. intros j. apply Hs.
Qed.

Lemma deaf_addSourceBuffer mimeType s :
  deaf s →
  deaf (set_sourceBuffer_ (Some (length (sourceBuffers s)))
          (set_sourceBuffers (sourceBuffers s ++ [SourceBuffer_new mimeType]) s)).
Proof.
  intros Hs j. specialize (Hs j). unfold listeners_of in *. simpl.
  destruct (decide (j < length (sourceBuffers s))) as [Hlt|Hge].
  - by rewrite lookup_app_l.
  - rewrite lookup_app_r by lia. by destruct (j - length (sourceBuffers s)) as [|[|]].
Qed.

Lemma createSourceBuffer__own_listener mimeType sourceBufferEmitter s :
  deaf s → sourcebufferadded_handlers s = 0 →
  own_listener (state_of (createSourceBuffer_ mimeType sourceBufferEmitter s)).
Proof.
  intros Hs Hh. rewrite createSourceBuffer__eq.
  pose proof (deaf_addSourceBuffer mimeType s Hs) as Hs1.
  set (s1 := set_sourceBuffer_ _ _) in *.
  assert (sourceBuffer_ s1 = Some (length (sourceBuffers s))) as Hi by done.
  assert (sourcebufferadded_handlers s1 = 0) as Hh1 by done.
  clearbody s1. unfold after_addSourceBuffer.
  destruct sourceBufferEmitter; [|by apply (start__own_listener (length (sourceBuffers s)))].
  unfold sourceBufferEmitter_trigger, bind, get. rewrite Hh1. simpl.
  destruct (length (sourceBuffers s1) <? 2).
  - simpl. apply deaf_own_listener. intros j. apply Hs1.
  - by apply (start__own_listener (length (sourceBuffers s))).
Qed.

(** One listener at most, on the updater's own buffer: after the
    constructor, after any events that start nothing, and after the
    ['sourceopen'] that follows them. *)
Lemma opened_once_own_listener
    user readyState0 others mimeType type sourceBufferEmitter t :
  Forall quiet t →
  let s := run user t (created readyState0 others mimeType type sourceBufferEmitter) in
  own_listener s ∧ own_listener (step user SourceOpen s).
Proof.
  intros Ht s.
  pose proof (forward_run user t
                (created readyState0 others mimeType type sourceBufferEmitter))
    as (_ & _ & _ & Hl & _).
  fold s in Hl. rewrite sourceopen_listeners_created in Hl.
  assert (deaf (mkState [] None 0%float false type mimeType false None None
                  readyState0 (replicate others (SourceBuffer_new "")) [] 0 0 []))
    as Hthis by (intros j; by apply (no_listeners_yet others)).
  destruct (ReadyState_eqb readyState0 closed) eqn:Hr.
  - assert (dormant [(mimeType, sourceBufferEmitter)] s) as (Hi & Hh & _ & Hd).
    { apply dormant_run.
      - intros Hin. by apply (proj1 (Forall_forall _ _) Ht) in Hin.
      - unfold created, constructor. rewrite Hr. by repeat split. }
    split; [by apply deaf_own_listener|].
    unfold step, fire_sourceopen, bind, modify, get. simpl. rewrite Hl. simpl.
    unfold bind, swallow, ret. simpl.
    apply createSourceBuffer__own_listener; [|done]. intros j. apply Hd.
  - assert (own_listener s) as Hs.
    { apply singly_quiet; [done|]. unfold created, constructor. rewrite Hr.
      by apply createSourceBuffer__own_listener. }
    split; [done|].
    unfold step, fire_sourceopen, bind, modify, get. simpl. rewrite Hl. simpl.
    intros j. apply Hs.
Qed.

Lemma start__idle_queue_trace i b s :
  sourceBuffer_ s = Some i → sourceBuffers s !! i = Some b → callbacks_ s = [] →
  trace (state_of (start_ s)) = trace s
  ∧ pendingCallback_ (state_of (start_ s)) = pendingCallback_ s.
Proof. intros Hi Hb Hq. by rewrite (start__idle_queue i b). Qed.

(** The constructor dispatches nothing: its queue is empty. *)
Lemma created_trace readyState0 others mimeType type sourceBufferEmitter :
  let s := created readyState0 others mimeType type sourceBufferEmitter in
  trace s = [] ∧ pendingCallback_ s = None.
Proof.
  unfold created, constructor.
  set (this := mkState _ _ _ _ _ _ _ _ _ _ _ _ _ _ _).
  destruct (ReadyState_eqb readyState0 closed); [done|].
  rewrite createSourceBuffer__eq. set (s1 := set_sourceBuffer_ _ _).
  assert (sourceBuffers s1 !! others = Some (SourceBuffer_new mimeType)) as Hb.
  { subst s1 this. simpl. rewrite lookup_app_r by (by rewrite length_replicate).
    by rewrite length_replicate, Nat.sub_diag. }
  assert (sourceBuffer_ s1 = Some others) as Hi.
  { subst s1 this. simpl. by rewrite length_replicate. }
  assert (callbacks_ s1 = [] ∧ trace s1 = [] ∧ pendingCallback_ s1 = None
          ∧ sourcebufferadded_handlers s1 = 0) as (Hq & Ht & Hp & Hh) by done.
  clearbody s1. clear this.
  destruct (start__idle_queue_trace others _ s1 Hi Hb Hq) as [Ht' Hp'].
  unfold after_addSourceBuffer.
  destruct sourceBufferEmitter; [|by rewrite Ht', Hp'].
  unfold sourceBufferEmitter_trigger, bind, get. rewrite Hh. simpl.
  destruct (length (sourceBuffers s1) <? 2); [done|by rewrite Ht', Hp'].
Qed.

(** ** The claim *)

(** C2, as stated, fails: an offset change is handed to the buffer and the
    append queued behind it follows at once, with no ['updateend'] in
    between; neither the handlers entered nor the events of the run show
    one. *)
Lemma offset_then_append_dispatched_back_to_back :
  let t := [Invoke (CallTimestampOffset (Some 5%float));
            Invoke (CallAppendBuffer [Byte.x01] (Some (Fn 1)))] in
  let s0 := created open 0 "video/mp2t" "main" false in
  exclusive every_operation (trace (run no_reentrancy t s0)) = false
  ∧ event_history no_reentrancy t s0
    = [Dispatched (sourceBuffer_set_timestampOffset 5%float) None;
       Dispatched (sourceBuffer_appendBuffer [Byte.x01]) (Some (Fn 1))]
  ∧ exclusive every_operation (event_history no_reentrancy t s0) = false.
Proof. vm_compute. repeat split; reflexivity. Qed.

(** Nor does a callback on every operation save the claim when the updater
    was started twice on the same buffer (['sourcebufferadded'] triggered a
    second time): two listeners answer the one ['updateend'], and each
    dispatches an operation. *)
Example two_listeners_dispatch_twice_on_one_updateend :
  let t := [SourceBufferAdded; SourceBufferAdded;
            Invoke (CallAppendBuffer [Byte.x01] (Some (Fn 1)));
            Invoke (CallAbort (Some (Fn 2)));
            Invoke (CallAppendBuffer [Byte.x03] (Some (Fn 3)));
            Idle 0; UpdateEnd 0 false] in
  let s0 := created open 0 "video/mp2t" "main" true in
  singly no_reentrancy t s0 = false
  ∧ event_history no_reentrancy t s0
    = [Dispatched (sourceBuffer_appendBuffer [Byte.x01]) (Some (Fn 1));
       Updateend;
       Dispatched sourceBuffer_abort (Some (Fn 2));
       Dispatched (sourceBuffer_appendBuffer [Byte.x03]) (Some (Fn 3))]
  ∧ exclusive with_callback (event_history no_reentrancy t s0) = false.
Proof. vm_compute. repeat split; reflexivity. Qed.

(** C2, amended.  [runCallback_] hands an operation to the buffer only
    when the buffer is not updating and no completion callback is pending.
    After an operation that was queued with a completion callback is handed
    to the buffer, no other operation is handed to it until the handler of
    ['updateend'] has been entered; an operation queued without a callback
    (every offset change) does not hold the next one back on its own.
    Event by event: as long as every ['updateend'] event is heard by at
    most one listener, on the updater's own buffer, no operation follows one
    with a callback without an ['updateend'] event in between, and when
    every queued operation has a callback no two operations are dispatched
    without one.  That condition holds of every run without
    ['sourcebufferadded'] and with at most one ['sourceopen']. *)
Theorem one_callback_in_flight :
  (∀ s,
     runCallback_ s = Normal tt s
     ∨ ∃ b, the_sourceBuffer s = Some b ∧ sb_updating b = false
            ∧ pendingCallback_ s = None ∧ started_ s = true)
  ∧ (∀ user readyState0 others mimeType type sourceBufferEmitter t,
       let s := run user t
                  (created readyState0 others mimeType type sourceBufferEmitter) in
       exclusive with_callback (trace s) = true
       ∧ (Forall (λ x, truthy x.2 = true) (enqueued (trace s)) →
          exclusive every_operation (trace s) = true))
  ∧ (∀ user readyState0 others mimeType type sourceBufferEmitter t,
       let s0 := created readyState0 others mimeType type sourceBufferEmitter in
       let s := run user t s0 in
       dispatched (event_history user t s0) = dispatched (trace s)
       ∧ (singly user t s0 = true →
          exclusive with_callback (event_history user t s0) = true
          ∧ (Forall (λ x, truthy x.2 = true) (enqueued (trace s)) →
             exclusive every_operation (event_history user t s0) = true)))
  ∧ (∀ user readyState0 others mimeType type sourceBufferEmitter t1 t2,
       Forall quiet t1 → Forall quiet t2 →
       let s0 := created readyState0 others mimeType type sourceBufferEmitter in
       singly user (t1 ++ t2) s0 = true
       ∧ singly user (t1 ++ SourceOpen :: t2) s0 = true).
Proof.
  split; [|split; [|split]].
  - intros s. rewrite runCallback__eq. destruct (can_dispatch s) eqn:Hc; [|by left].
    right. apply can_dispatch_true in Hc as (i & b & _ & _ & Hi & Hb & Hu & Hp & _ & Hst).
    exists b. unfold the_sourceBuffer. by rewrite Hi.
  - intros user r n m ty e t s.
    pose proof (Inv_reached user r n m ty e t) as [].
    fold s in inv_fifo0, inv_excl0.
    assert (exclusive with_callback (trace s) = true) as H1.
    { unfold exclusive. by rewrite inv_excl0. }
    split; [done|]. intros Hall.
    unfold exclusive. rewrite scan_every_operation; [done|].
    rewrite inv_fifo0 in Hall. by apply Forall_app in Hall as [? _].
  - intros user r n m ty e t s0 s.
    destruct (created_trace r n m ty e) as [Ht0 Hp0]. fold s0 in Ht0, Hp0.
    pose proof (history_dispatched user t s0) as Hd. fold s in Hd.
    rewrite Ht0 in Hd. simpl in Hd.
    split; [done|]. intros Hs.
    assert (Inv s0) as Hinv0 by apply Inv_constructor.
    pose proof (history_scan user t s0 Hinv0 Hs) as Hscan.
    rewrite Hp0 in Hscan. simpl in Hscan.
    assert (exclusive with_callback (event_history user t s0) = true) as H1.
    { unfold exclusive. by rewrite Hscan. }
    split; [done|]. intros Hall.
    unfold exclusive. rewrite scan_every_operation; [done|].
    rewrite <- Hd.
    pose proof (Inv_reached user r n m ty e t) as [Hfifo _ _ _ _ _ _ _].
    fold s0 s in Hfifo. rewrite Hfifo in Hall. by apply Forall_app in Hall as [? _].
  - intros user r n m ty e t1 t2 Ht1 Ht2 s0.
    destruct (opened_once_own_listener user r n m ty e t1 Ht1) as [Hown Hopen].
    destruct (opened_once_own_listener user r n m ty e [] (Forall_nil_2 _)) as [Hown0 _].
    simpl in Hown0. fold s0 in Hown, Hopen, Hown0.
    destruct (singly_quiet user t1 s0 Ht1 Hown0) as [H1 _].
    rewrite !singly_app, H1. simpl.
    rewrite (proj1 (singly_quiet user t2 _ Ht2 Hown)).
    by rewrite (proj1 (singly_quiet user t2 _ Ht2 Hopen)).
Qed.

(** An append and a remove, both with a callback (the remove's is the
    no-op default): the remove is dispatched only after the ['updateend']
    event of the append. *)
Lemma one_callback_in_flight_witness :
  let t := [Invoke (CallAppendBuffer [Byte.x01] (Some (Fn 1)));
            Invoke (CallRemove 0%float 10%float None);
            Idle 0; UpdateEnd 0 false] in
  let s0 := created open 0 "video/mp2t" "main" false in
  singly no_reentrancy t s0 = true
  ∧ event_history no_reentrancy t s0
    = [Dispatched (sourceBuffer_appendBuffer [Byte.x01]) (Some (Fn 1));
       Updateend;
       Dispatched (sourceBuffer_remove 0%float 10%float) (Some noop)]
  ∧ exclusive every_operation (event_history no_reentrancy t s0) = true.
Proof.
  intros t s0.
  assert (singly no_reentrancy t s0 = true) as Hs by (vm_compute; reflexivity).
  split; [exact Hs|]. split; [vm_compute; reflexivity|].
  destruct one_callback_in_flight as (_ & _ & H & _).
  destruct (H no_reentrancy open 0 "video/mp2t" "main" false t) as (_ & H').
  apply (H' Hs). by repeat constructor.
Defined.

(** * Readiness, operation by operation *)

Lemma deaf_quiet_run user t s : Forall quiet t → deaf s → deaf (run user t s).
Proof.
  revert s. induction t as [|e t IH]; intros s Ht Hs; [done|].
  apply Forall_cons in Ht as [He Ht]. simpl. apply IH; [done|].
  by apply deaf_step.
Qed.

Lemma sourceBuffer__quiet_run user t s :
  Forall quiet t → sourceBuffer_ (run user t s) = sourceBuffer_ s.
Proof.
  revert s. induction t as [|e t IH]; intros s Ht; [done|].
  apply Forall_cons in Ht as [He Ht]. simpl. rewrite IH by done.
  by destruct (quiet_step_listeners user e s He).
Qed.

(** An updater made with an emitter, alone on its media source, once its
    buffer is there: whatever is called, it is not started, refers to buffer
    0 and listens nowhere. *)
Lemma paired_updater_waits user readyState0 mimeType type t :
  Forall quiet t →
  let s0 := if ReadyState_eqb readyState0 closed
            then step user SourceOpen (created readyState0 0 mimeType type true)
            else created readyState0 0 mimeType type true in
  let s := run user t s0 in
  Inv s ∧ awaiting_pairing s ∧ sourceBuffer_ s = Some 0
  ∧ ∃ b, sourceBuffers s !! 0 = Some b ∧ sb_listeners b = [].
Proof.
  intros Ht s0 s.
  assert (awaiting_pairing s0) as H0 by (subst s0; by destruct readyState0).
  assert (sourceBuffer_ s0 = Some 0) as Hi0 by (subst s0; by destruct readyState0).
  assert (deaf s0) as Hd0.
  { intros j. subst s0. destruct readyState0; by destruct j as [|[|j]]. }
  assert (Inv s) as Hinv.
  { subst s s0. destruct readyState0; simpl; try apply Inv_reached.
    change (step user SourceOpen (created closed 0 mimeType type true))
      with (run user [SourceOpen] (created closed 0 mimeType type true)).
    rewrite <- run_app. apply Inv_reached. }
  assert (sourceBuffer_ s = Some 0) as Hi.
  { subst s. by rewrite sourceBuffer__quiet_run. }
  split; [done|]. split; [by apply awaiting_pairing_run|]. split; [done|].
  destruct (lookup_lt_is_Some_2 (sourceBuffers s) 0) as [b Hb];
    [by apply (inv_ref s Hinv)|].
  exists b. split; [done|].
  pose proof (deaf_quiet_run user t s0 Ht Hd0 0) as Hl. fold s in Hl.
  unfold listeners_of in Hl. by rewrite Hb in Hl.
Qed.

(** ['sourcebufferadded'] on an updater that waits for it: [start_]
    subscribes the handler and the head of the queue is run on the
    buffer. *)
Lemma sourcebufferadded_serves user s i b :
  Inv s → awaiting_pairing s → sourceBuffer_ s = Some i →
  sourceBuffers s !! i = Some b → sb_listeners b = [] →
  let s' := step user SourceBufferAdded s in
  let h := next_closure s in
  started_ s' = true ∧ sourceBuffer_ s' = Some i ∧ listeners_of i s' = [h]
  ∧ onUpdateendCallback_ s' = Some h
  ∧ dispatched (trace s') = take 1 (callbacks_ s)
  ∧ callbacks_ s' = drop 1 (callbacks_ s)
  ∧ pendingCallback_ s' = head (callbacks_ s) ≫= snd
  ∧ the_sourceBuffer s'
    = Some (served (take 1 (callbacks_ s)) (SourceBuffer_addEventListener h b)).
Proof.
  intros Hinv [Hst Hh] Hi Hb Hl s' h.
  assert (s' = state_of (start_ s)) as ->.
  { subst s'. unfold step, sourceBufferEmitter_trigger, bind, get. by rewrite Hh. }
  destruct (Inv_not_started s Hinv Hst) as (Hd & _ & Hp & Hidle).
  pose proof (proj1 (Forall_lookup _ _) Hidle i b Hb) as Hu. simpl in Hu.
  assert (state_of (start_ s) = run_queue (listening i s)) as ->.
  { rewrite start__eq. unfold the_sourceBuffer. by rewrite Hi, Hb. }
  assert (sourceBuffers (listening i s) !! i
          = Some (SourceBuffer_addEventListener h b)) as HB.
  { unfold listening. simpl. by rewrite list_lookup_alter_eq, Hb. }
  assert (sb_listeners (SourceBuffer_addEventListener h b) = [h]) as HL.
  { simpl. by rewrite Hl. }
  assert (can_dispatch (listening i s) = (0 <? length (callbacks_ s))) as Hc.
  { unfold can_dispatch, updating, the_sourceBuffer.
    change (sourceBuffer_ (listening i s)) with (sourceBuffer_ s).
    rewrite Hi, HB. unfold listening. simpl. rewrite Hp, Hu. simpl.
    apply andb_true_r. }
  unfold run_queue. rewrite Hc.
  destruct (callbacks_ s) as [|[callback done] rest] eqn:Hq; simpl.
  - unfold the_sourceBuffer, listeners_of.
    change (sourceBuffer_ (listening i s)) with (sourceBuffer_ s).
    rewrite Hi, HB, HL. unfold listening. simpl. by rewrite Hq, Hp.
  - unfold dispatch. change (sourceBuffer_ (listening i s)) with (sourceBuffer_ s).
    change (callbacks_ (listening i s)) with (callbacks_ s).
    rewrite Hq, Hi. unfold the_sourceBuffer, listeners_of. simpl.
    rewrite Hi, !list_lookup_alter_eq, Hb, dispatched_snoc, Hd. simpl.
    rewrite (SourceBuffer_idle_idle (SourceBuffer_addEventListener h b)) by done.
    repeat split; try done. destruct callback; simpl; by rewrite Hl.
Qed.

(** One completion on a started updater with a queue: the buffer turns
    idle and is handed the head of the queue. *)
Lemma completion_serves i h s B x rest :
  live i h s → the_sourceBuffer s = Some B → callbacks_ s = x :: rest →
  let s' := run no_reentrancy (completion i) s in
  live i h s'
  ∧ the_sourceBuffer s' = Some (SourceBuffer_run x.1 (SourceBuffer_idle B))
  ∧ callbacks_ s' = rest ∧ pendingCallback_ s' = x.2
  ∧ dispatched (trace s') = dispatched (trace s) ++ [x].
Proof.
  intros Hlive HB Hq s'. subst s'.
  pose proof (live_after_completion i h s Hlive) as Hlive'.
  pose proof (can_dispatch_after_completion i h s Hlive) as Hc.
  destruct Hlive as (Hst & Hi & Hl).
  rewrite (completion_eq i h s Hl). split; [done|]. clear Hlive'.
  rewrite Hq in Hc. simpl in Hc.
  destruct (acknowledged_fields (idle i s)) as (_ & E2 & E3 & E4 & _).
  simpl in E2, E3, E4.
  unfold run_queue. rewrite Hc. unfold dispatch. rewrite E4, E2, Hq, Hi. simpl.
  rewrite dispatched_snoc, dispatched_acknowledged. simpl.
  unfold the_sourceBuffer in *. simpl. rewrite Hi in HB.
  rewrite E2, Hi, list_lookup_alter_eq, E3, list_lookup_alter_eq, HB. simpl.
  by destruct x.
Qed.

Lemma completions_serve i h k :
  ∀ s B q,
    live i h s → the_sourceBuffer s = Some B → callbacks_ s = q → k ≤ length q →
    let s' := run no_reentrancy (completions i k) s in
    listeners_of i s' = [h]
    ∧ the_sourceBuffer s' = Some (served (take k q) B)
    ∧ callbacks_ s' = drop k q
    ∧ pendingCallback_ s'
      = match k with 0 => pendingCallback_ s | S k' => (q !! k') ≫= snd end
    ∧ dispatched (trace s') = dispatched (trace s) ++ take k q.
Proof.
  induction k as [|k IH]; intros s B q Hlive HB Hq Hk s'.
  - subst s'. simpl. rewrite drop_0, app_nil_r. by destruct Hlive as (_ & _ & ?).
  - destruct q as [|x rest]; [simpl in Hk; lia|].
    subst s'. change (completions i (S k)) with (completion i ++ completions i k).
    rewrite run_app.
    destruct (completion_serves i h s B x rest Hlive HB Hq)
      as (Hlive1 & HB1 & Hq1 & Hp1 & Hd1).
    destruct (IH _ _ rest Hlive1 HB1 Hq1) as (L & HBk & Hqk & Hpk & Hdk);
      [simpl in Hk; lia|].
    split; [done|]. split; [done|]. split; [done|]. split.
    + rewrite Hpk. by destruct k.
    + rewrite Hdk, Hd1, <- app_assoc. done.
Qed.

(** C5. The operations are handed to the buffer in the order they were
    queued, and none before the updater has started: as long as it has not,
    every operation queued so far is still in the queue, in order, no
    callback is pending and no buffer is updating.  An updater made with an
    emitter on a media source without other buffers does not start when its
    buffer is created: whatever is called and whatever ['updateend']
    arrives, it holds the operations in the queue until ['sourcebufferadded']
    is triggered.  It then starts, subscribes its handler to the buffer and
    runs the head of the queue on the buffer; and with every completion that
    follows the buffer is handed the next held operation, so that after [n]
    completions it has run the actions of the first [n + 1] operations, in
    the order they were queued. *)
Theorem no_dispatch_before_started :
  (∀ user readyState0 others mimeType type sourceBufferEmitter t,
     let s := run user t (created readyState0 others mimeType type sourceBufferEmitter) in
     enqueued (trace s) = dispatched (trace s) ++ callbacks_ s
     ∧ (started_ s = false →
        dispatched (trace s) = [] ∧ callbacks_ s = enqueued (trace s)
        ∧ pendingCallback_ s = None
        ∧ Forall (λ b, sb_updating b = false) (sourceBuffers s)))
  ∧ (∀ user readyState0 mimeType type t,
       Forall quiet t →
       let s0 := if ReadyState_eqb readyState0 closed
                 then step user SourceOpen (created readyState0 0 mimeType type true)
                 else created readyState0 0 mimeType type true in
       let s := run user t s0 in
       let s' := step user SourceBufferAdded s in
       started_ s = false
       ∧ dispatched (trace s) = []
       ∧ callbacks_ s = enqueued (trace s)
       ∧ started_ s' = true
       ∧ dispatched (trace s') = take 1 (callbacks_ s)
       ∧ callbacks_ s' = drop 1 (callbacks_ s)
       ∧ pendingCallback_ s' = head (callbacks_ s) ≫= snd
       ∧ ∃ b h,
           sourceBuffers s !! 0 = Some b ∧ sb_listeners b = []
           ∧ listeners_of 0 s' = [h] ∧ onUpdateendCallback_ s' = Some h
           ∧ the_sourceBuffer s'
             = Some (served (take 1 (callbacks_ s)) (SourceBuffer_addEventListener h b)))
  ∧ (∀ readyState0 mimeType type t n,
       Forall quiet t →
       let s0 := if ReadyState_eqb readyState0 closed
                 then step no_reentrancy SourceOpen
                        (created readyState0 0 mimeType type true)
                 else created readyState0 0 mimeType type true in
       let s := run no_reentrancy t s0 in
       n < length (callbacks_ s) →
       let s' := run no_reentrancy (SourceBufferAdded :: completions 0 n) s in
       dispatched (trace s') = take (S n) (enqueued (trace s))
       ∧ callbacks_ s' = drop (S n) (enqueued (trace s))
       ∧ pendingCallback_ s' = (enqueued (trace s) !! n) ≫= snd
       ∧ invoked (trace s') ++ option_list (pendingCallback_ s')
         = dones (take (S n) (enqueued (trace s)))
       ∧ ∃ b h,
           sourceBuffers s !! 0 = Some b ∧ listeners_of 0 s' = [h]
           ∧ the_sourceBuffer s'
             = Some (served (take (S n) (enqueued (trace s)))
                       (SourceBuffer_addEventListener h b))).
Proof.
  split; [|split].
  - intros user r n m ty e t s.
    pose proof (Inv_reached user r n m ty e t) as Hinv. fold s in Hinv.
    split; [apply (inv_fifo s Hinv)|]. intros Hst.
    by apply Inv_not_started.
  - intros user r m ty t Ht s0 s s'.
    destruct (paired_updater_waits user r m ty t Ht) as (Hinv & Hw & Hi & b & Hb & Hl).
    fold s0 s in Hinv, Hw, Hi, Hb.
    destruct (Inv_not_started s Hinv (proj1 Hw)) as (Hd & Hq & _).
    destruct (sourcebufferadded_serves user s 0 b Hinv Hw Hi Hb Hl)
      as (H1 & _ & H3 & H4 & H5 & H6 & H7 & H8).
    fold s' in H1, H3, H4, H5, H6, H7, H8.
    destruct Hw as [Hst _]. repeat split; try done.
    by exists b, (next_closure s).
  - intros r m ty t n Ht s0 s Hn s'.
    destruct (paired_updater_waits no_reentrancy r m ty t Ht)
      as (Hinv & Hw & Hi & b & Hb & Hl).
    fold s0 s in Hinv, Hw, Hi, Hb.
    destruct (Inv_not_started s Hinv (proj1 Hw)) as (Hd & Hq & _).
    destruct (sourcebufferadded_serves no_reentrancy s 0 b Hinv Hw Hi Hb Hl)
      as (H1 & H2 & H3 & _ & H5 & H6 & H7 & H8).
    set (s1 := step no_reentrancy SourceBufferAdded s) in *.
    set (h := next_closure s) in *.
    assert (s' = run no_reentrancy (completions 0 n) s1) as Hs' by done.
    assert (Inv s') as Hinv'.
    { rewrite Hs'. apply Inv_run. subst s1. by apply Inv_step. }
    rewrite <- Hq. destruct (callbacks_ s) as [|x rest] eqn:Hqs; [simpl in Hn; lia|].
    simpl in H5, H6, H7, H8, Hn.
    destruct (completions_serve 0 h n s1 _ rest (conj H1 (conj H2 H3)) H8 H6)
      as (L & HB & Hqn & Hpn & Hdn); [lia|].
    fold s' in L, HB, Hqn, Hpn, Hdn. rewrite <- Hs' in *.
    assert (dispatched (trace s') = take (S n) (x :: rest)) as Hd'.
    { by rewrite Hdn, H5. }
    assert (pendingCallback_ s' = ((x :: rest) !! n) ≫= snd) as Hp'.
    { rewrite Hpn. by destruct n. }
    split; [done|]. split; [done|]. split; [done|]. split.
    + by rewrite <- Hd', (inv_once s' Hinv').
    + exists b, h. by repeat split.
Qed.

(** An updater with an emitter, alone on its media source: two appends and
    a stray ['updateend'] stay in the queue; ['sourcebufferadded'] starts
    the updater, which runs the first append on the buffer, and the
    completion of the first append hands the buffer the second. *)
Lemma no_dispatch_before_started_witness :
  let t := [Invoke (CallAppendBuffer [Byte.x01] (Some (Fn 1)));
            Invoke (CallAppendBuffer [Byte.x02] (Some (Fn 2)));
            UpdateEnd 0 false] in
  let s := run no_reentrancy t (created open 0 "video/mp2t" "main" true) in
  let s' := step no_reentrancy SourceBufferAdded s in
  let s'' := run no_reentrancy (SourceBufferAdded :: completions 0 1) s in
  Forall quiet t
  ∧ callbacks_ s
    = [(sourceBuffer_appendBuffer [Byte.x01], Some (Fn 1));
       (sourceBuffer_appendBuffer [Byte.x02], Some (Fn 2))]
  ∧ started_ s = false
  ∧ dispatched (trace s) = []
  ∧ started_ s' = true
  ∧ dispatched (trace s') = [(sourceBuffer_appendBuffer [Byte.x01], Some (Fn 1))]
  ∧ callbacks_ s' = [(sourceBuffer_appendBuffer [Byte.x02], Some (Fn 2))]
  ∧ dispatched (trace s'')
    = [(sourceBuffer_appendBuffer [Byte.x01], Some (Fn 1));
       (sourceBuffer_appendBuffer [Byte.x02], Some (Fn 2))]
  ∧ callbacks_ s'' = []
  ∧ pendingCallback_ s'' = Some (Fn 2)
  ∧ sb_updating <$> the_sourceBuffer s'' = Some true.
Proof.
  intros t s s' s''.
  assert (Forall quiet t) as Ht by (by repeat constructor).
  assert (callbacks_ s
          = [(sourceBuffer_appendBuffer [Byte.x01], Some (Fn 1));
             (sourceBuffer_appendBuffer [Byte.x02], Some (Fn 2))]) as Hq
    by (vm_compute; reflexivity).
  destruct no_dispatch_before_started as (_ & Hhead & Hrest).
  pose proof (Hhead no_reentrancy open "video/mp2t" "main" t Ht) as HH.
  pose proof (Hrest open "video/mp2t" "main" t 1 Ht) as HR.
  cbv beta iota zeta delta [ReadyState_eqb] in HH, HR.
  fold s in HH, HR. fold s' in HH. fold s'' in HR.
  destruct HH as (H1 & H2 & H3 & H4 & H5 & H6 & _).
  destruct HR as (R1 & R2 & R3 & _ & b & h & _ & _ & R5);
    [rewrite Hq; simpl; lia|].
  rewrite <- H3, Hq in R1, R2, R3, R5. rewrite Hq in H5, H6.
  split; [exact Ht|]. split; [exact Hq|]. split; [exact H1|]. split; [exact H2|].
  split; [exact H4|]. split; [exact H5|]. split; [exact H6|].
  split; [exact R1|]. split; [exact R2|]. split; [exact R3|].
  rewrite R5. reflexivity.
Defined.

End SourceUpdater.
